(** * scripts/deadcode.py: the dead-code detector for Go projects

    A shallow embedding of [scripts/deadcode.py] and the properties of its
    pipeline: tree walker ([find_files]), file reader ([read_file]),
    definition extractor ([find_function_definitions]), reference scanner
    ([count_references]), classifier and report renderer ([process]).

    Conventions of the model.
    - Text is [string]; the character classes are Python's on the ASCII
      range, and a character outside that range belongs to no class.
    - A dict is a [gmap]; [defaultdict] lookups are written with the default.
    - The two output streams are lists of printed strings, one element per
      call of [print]. *)

From Stdlib Require Import Ascii String.
From stdpp Require Import base strings list gmap sorting pretty.

(** ** Characters and strings as Python sees them *)

Module Py.

Definition code (c : ascii) : N := N_of_ascii c.

Definition between (lo hi : N) (c : ascii) : bool :=
  ((lo <=? code c) && (code c <=? hi))%N.

(** [str.isspace] on one ASCII character, also the class [\s]:
    TAB LF VT FF CR, FS GS RS US and the space. *)
Definition is_space (c : ascii) : bool :=
  between 9 13 c || between 28 32 c.

Definition is_upper (c : ascii) : bool := between 65 90 c.
Definition is_lower (c : ascii) : bool := between 97 122 c.
Definition is_digit (c : ascii) : bool := between 48 57 c.

(** The class [\w]: letters, digits and the underscore. *)
Definition is_word (c : ascii) : bool :=
  is_upper c || is_lower c || is_digit c || (code c =? 95)%N.

(** [s.startswith(p)] *)
Definition startswith (s p : string) : bool := String.prefix p s.

(** [s.lstrip()], [s.rstrip()] and [s.strip()] *)
Fixpoint lstrip (s : string) : string :=
  match s with
  | String c s' => if is_space c then lstrip s' else s
  | EmptyString => EmptyString
  end.

Fixpoint rstrip (s : string) : string :=
  match s with
  | String c s' =>
      match rstrip s' with
      | EmptyString => if is_space c then EmptyString else String c EmptyString
      | r => String c r
      end
  | EmptyString => EmptyString
  end.

Definition strip (s : string) : string := rstrip (lstrip s).

(** [s[:n]] *)
Definition take (n : nat) (s : string) : string := String.substring 0 n s.

(** [s * n] *)
Fixpoint times (s : string) (n : nat) : string :=
  match n with
  | O => EmptyString
  | S n' => s +:+ times s n'
  end.

(** [sep.join(l)] *)
Fixpoint join (sep : string) (l : list string) : string :=
  match l with
  | [] => EmptyString
  | [x] => x
  | x :: l' => x +:+ sep +:+ join sep l'
  end.

(** The format [{n:<w}]: decimal, padded with spaces on the right. *)
Definition ljust (w : nat) (s : string) : string :=
  s +:+ times " " (w - String.length s).

End Py.

(** ** Regular expressions

    The fragment of [re] that the two patterns of the script use, with the
    backtracking semantics of the [re] module: alternatives are tried in
    order, a repetition is greedy and gives characters back one at a time.
    A matcher walks the subject left to right; it knows the character before
    the current position (for [^] and [\b]) and hands what it consumed to its
    continuation. *)

Module Re.

Inductive regex : Type :=
| Bol                                      (* ^ *)
| WordB                                    (* \b *)
| Lit (c : ascii)                          (* one literal character *)
| Rep (cls : ascii → bool) (least : nat)   (* cls* and cls+, greedy *)
| Cat (r1 r2 : regex)                      (* r1 r2 *)
| Opt (r : regex)                          (* (?:r)? , greedy *)
| Grp (r : regex).                         (* (r), group 1 *)

(** The literal text [s]. *)
Fixpoint Str (s : string) (r : regex) : regex :=
  match s with
  | String c s' => Cat (Lit c) (Str s' r)
  | EmptyString => r
  end.

Section matcher.
Context {A : Type}.

(** What a continuation receives: the text consumed, the character
    before the new position, the rest of the subject, group 1. *)
Definition cont : Type :=
  string → option ascii → string → option string → option A.

Fixpoint rep (cls : ascii → bool) (least : nat) (prev : option ascii)
    (s : string) (k : string → option ascii → string → option A) : option A :=
  let stop := match least with O => k "" prev s | S _ => None end in
  match s with
  | String c s' =>
      if cls c then
        match rep cls (pred least) (Some c) s' (λ m, k (String c m)) with
        | Some a => Some a
        | None => stop
        end
      else stop
  | EmptyString => stop
  end.

Definition word_before (prev : option ascii) : bool :=
  match prev with Some c => Py.is_word c | None => false end.

Definition word_after (s : string) : bool :=
  match s with String c _ => Py.is_word c | EmptyString => false end.

Fixpoint run (r : regex) (prev : option ascii) (s : string)
    (g : option string) (k : cont) : option A :=
  match r with
  | Bol => match prev with None => k "" prev s g | Some _ => None end
  | WordB =>
      if xorb (word_before prev) (word_after s) then k "" prev s g else None
  | Lit c =>
      match s with
      | String c' s' =>
          if bool_decide (c = c') then k (String c "") (Some c) s' g else None
      | EmptyString => None
      end
  | Rep cls least => rep cls least prev s (λ m p s', k m p s' g)
  | Cat r1 r2 =>
      run r1 prev s g (λ m1 p1 s1 g1,
        run r2 p1 s1 g1 (λ m2, k (m1 +:+ m2)))
  | Opt r' =>
      match run r' prev s g k with
      | Some a => Some a
      | None => k "" prev s g
      end
  | Grp r' => run r' prev s g (λ m p s' _, k m p s' (Some m))
  end.
End matcher.

(** A match object: [group(0)] and [group(1)]. *)
Record Match : Type := { group0 : string; group1 : option string }.

Definition attempt (r : regex) (prev : option ascii) (s : string) : option Match :=
  run r prev s None (λ m _ _ g, Some {| group0 := m; group1 := g |}).

(** [pattern.match(s)]: a match at the start of the subject. *)
Definition re_match (r : regex) (s : string) : option Match := attempt r None s.

(** [pattern.finditer(s)]: the matches found left to right, each search
    resuming where the previous match ended. [skip] counts the characters
    of the last match still to step over; a position where nothing
    matches, or an empty match, moves the search one character on. *)
Fixpoint scan (r : regex) (prev : option ascii) (s : string) (skip : nat)
    : list Match :=
  match skip with
  | S n =>
      match s with
      | String c s' => scan r (Some c) s' n
      | EmptyString => []
      end
  | O =>
      let next (n : nat) :=
        match s with
        | String c s' => scan r (Some c) s' n
        | EmptyString => []
        end in
      match attempt r prev s with
      | Some m => m :: next (pred (String.length (group0 m)))
      | None => next O
      end
  end.

Definition finditer (r : regex) (s : string) : list Match := scan r None s 0.

(** Vocabulary for the statements about matches: the longest prefix of
    characters of a class with what follows it, whether all characters of
    a text are in a class, and the character before the position reached
    after a text. *)
Fixpoint span (cls : ascii → bool) (s : string) : string * string :=
  match s with
  | String c s' =>
      if cls c then let '(a, b) := span cls s' in (String c a, b)
      else (EmptyString, s)
  | EmptyString => (EmptyString, EmptyString)
  end.

Fixpoint all_in (cls : ascii → bool) (s : string) : bool :=
  match s with
  | String c s' => cls c && all_in cls s'
  | EmptyString => true
  end.

Definition starts_in (cls : ascii → bool) (s : string) : bool :=
  match s with String c _ => cls c | EmptyString => false end.

Fixpoint after (prev : option ascii) (m : string) : option ascii :=
  match m with
  | String c m' => after (Some c) m'
  | EmptyString => prev
  end.

End Re.

Import Re.

(** ** The two patterns of the script *)

Definition not_rparen (c : ascii) : bool := negb (bool_decide (c = ")"%char)).

(** [FUNC_PATTERN = re.compile(r"^\s*func\s+(?:\([^)]+\)\s+)?(\w+)")] *)
Definition FUNC_PATTERN : regex :=
  Cat Bol (Cat (Rep Py.is_space 0) (Str "func" (Cat (Rep Py.is_space 1)
    (Cat (Opt (Cat (Lit "(") (Cat (Rep not_rparen 1)
                (Cat (Lit ")") (Rep Py.is_space 1)))))
         (Grp (Rep Py.is_word 1)))))).

(** [WORD_BOUNDARY = re.compile(r"\b(\w+)\b")] *)
Definition WORD_BOUNDARY : regex :=
  Cat WordB (Cat (Grp (Rep Py.is_word 1)) WordB).

Definition nl : string := String "010" "".
Definition tab : string := String "009" "".

(** [match.group(1)] of [FUNC_PATTERN.match(line)], when there is a match. *)
Definition func_name_of (line : string) : option string :=
  re_match FUNC_PATTERN line ≫= group1.

(** [match.group(1)] for every match of [WORD_BOUNDARY.finditer(line)]. *)
Definition words_of (line : string) : list string :=
  omap group1 (finditer WORD_BOUNDARY line).

(** ** Paths and the file system *)

(** A [pathlib] path by its [parts]. *)
Abbreviation path := (list string).

(** [str(p)] for a relative path. *)
Definition path_str (p : path) : string :=
  match p with [] => "." | _ => Py.join "/" p end.

(** [p <= q] on paths: [pathlib] compares the lists of parts. *)
Fixpoint path_leb (p q : path) : bool :=
  match p, q with
  | [], _ => true
  | _ :: _, [] => false
  | a :: p', b :: q' =>
      if bool_decide (a = b) then path_leb p' q' else bool_decide (String.le a b)
  end.

Definition path_le : relation path := λ p q, path_leb p q.

Global Instance path_le_dec : RelDecision path_le.
Proof. intros p q. unfold path_le. apply _. Defined.

(** [p.relative_to(base)]; [None] stands for the [ValueError]. *)
Fixpoint relative_to (p base : path) : option path :=
  match base, p with
  | [], _ => Some p
  | b :: base', a :: p' =>
      if bool_decide (a = b) then relative_to p' base' else None
  | _ :: _, [] => None
  end.

(** What reading a file as UTF-8 text gives: [open] fails; or the iteration
    over the lines fails after some lines were read (the text layer decodes
    the file block by block, so a bad byte sequence in a later block is met
    only after the lines of the earlier blocks were handed out); or all the
    lines are read. [e] is the text of the exception. *)
Inductive contents : Type :=
| OpenError (e : string)
| DecodeError (read : list string) (e : string)
| Text (lines : list string).

(** The file tree the script runs in.
    - [fs_cwd]: [os.getcwd()].
    - [fs_entries where pattern]: the entries below the directory [where]
      whose name matches [pattern], each by its position relative to
      [where], in the order the directory scan meets them.
    - [fs_open p]: what reading the file at [p] (relative to the working
      directory) gives. *)
Record FileSystem : Type := {
  fs_cwd : path;
  fs_entries : path → string → list path;
  fs_open : path → contents
}.

(** [pathlib.Path(where).rglob(pattern)] yields the entries as [where / rel]. *)
Definition rglob (fs : FileSystem) (where_ : path) (pattern : string) : list path :=
  (λ rel, where_ ++ rel) <$> fs_entries fs where_ pattern.

(** ** The script *)

(** [log(msg, verbose)]: the line it prints on stderr, if any. *)
Definition log (msg : string) (verbose : bool) : list string :=
  if verbose then ["[INFO] " +:+ msg] else [].

(** [enumerate(source)] with [index + 1]. *)
Definition numbered (ls : list string) : list (nat * string) :=
  imap (λ index line, (index + 1, line)) ls.

(** [f"[WARN] Could not read {filename}: {e}"] *)
Definition warning (filename : path) (e : string) : string :=
  "[WARN] Could not read " +:+ path_str filename +:+ ": " +:+ e.

(** [read_file(filename)]: the pairs the generator yields, and what it prints
    on stderr. *)
Definition read_file (fs : FileSystem) (filename : path)
    : list (nat * string) * list string :=
  match fs_open fs filename with
  | OpenError e => ([], [warning filename e])
  | DecodeError read e => (numbered read, [warning filename e])
  | Text lines => (numbered lines, [])
  end.

Definition excluded_dirs : list string := ["vendor"; ".git"; "testdata"; "mocks"].

(** [any(excluded in path.parts for excluded in excluded_dirs)] *)
Definition in_excluded_dir (p : path) : bool :=
  existsb (λ excluded, bool_decide (excluded ∈ p)) excluded_dirs.

(** [find_files(where, pattern)] *)
Definition find_files (fs : FileSystem) (where_ : path) (pattern : string)
    : option (list path) :=
  results ← mapM (λ p, relative_to p where_)
               (filter (λ p, in_excluded_dir p = false) (rglob fs where_ pattern));
  Some (merge_sort path_le results).

(** A definition site: [(str(filename), number)]. *)
Abbreviation site := (string * nat)%type.

(** [functions[func_name].append(x)] on a [defaultdict(list)] *)
Definition dict_append {V} (k : string) (x : V) (d : gmap string (list V))
    : gmap string (list V) :=
  <[k := default [] (d !! k) ++ [x]]> d.

Definition definitions_in_line (filename : path)
    (functions : gmap string (list site)) (nline : nat * string)
    : gmap string (list site) :=
  match func_name_of nline.2 with
  | Some func_name => dict_append func_name (path_str filename, nline.1) functions
  | None => functions
  end.

Definition definitions_in_file (fs : FileSystem)
    (functions : gmap string (list site)) (filename : path)
    : gmap string (list site) :=
  foldl (definitions_in_line filename) functions (read_file fs filename).1.

(** [find_function_definitions(files, verbose)]: the dict, and stderr. *)
Definition find_function_definitions (fs : FileSystem) (files : list path)
    (verbose : bool) : gmap string (list site) * list string :=
  let functions := foldl (definitions_in_file fs) ∅ files in
  (functions,
   (files ≫= λ filename, (read_file fs filename).2)
   ++ log ("Found " +:+ pretty (size functions) +:+ " unique function/method names")
          verbose).

(** A reference: [(f"{filename}:{number}", line.strip()[:80])]. *)
Abbreviation reference := (string * string)%type.

Record tally : Type := {
  counters : gmap string nat;
  references : gmap string (list reference)
}.

Definition count_word (func_set : gset string) (filename : path)
    (nline : nat * string) (t : tally) (word : string) : tally :=
  if bool_decide (word ∈ func_set) then
    {| counters := <[word := default 0 (counters t !! word) + 1]> (counters t);
       references :=
         dict_append word
           (path_str filename +:+ ":" +:+ pretty nline.1,
            Py.take 80 (Py.strip nline.2))
           (references t) |}
  else t.

Definition count_line (func_set : gset string) (filename : path)
    (t : tally) (nline : nat * string) : tally :=
  foldl (count_word func_set filename nline) t (words_of nline.2).

Definition count_file (fs : FileSystem) (func_set : gset string)
    (t : tally) (filename : path) : tally :=
  foldl (count_line func_set filename) t (read_file fs filename).1.

(** The progress line of file number [i] (from 0) of the scan. *)
Definition scan_progress (total_files : nat) (verbose : bool)
    (i : nat) (filename : path) : list string :=
  if verbose && bool_decide ((i + 1) `mod` 50 = 0) then
    log ("Scanning file " +:+ pretty (i + 1) +:+ "/" +:+ pretty total_files
         +:+ ": " +:+ path_str filename) verbose
  else [].

(** [count_references(files, function_names, verbose)]: the counters and
    references, and stderr. *)
Definition count_references (fs : FileSystem) (files : list path)
    (function_names : gset string) (verbose : bool) : tally * list string :=
  let func_set := function_names in
  let total_files := length files in
  (foldl (count_file fs func_set) {| counters := ∅; references := ∅ |} files,
   mjoin (imap (λ i filename,
            scan_progress total_files verbose i filename
            ++ (read_file fs filename).2) files)
   ++ log ("Scanned " +:+ pretty total_files +:+ " files for references") verbose).

(** The parsed command line: [args] of [process]. [max_refs] is whatever
    integer [--max-refs] was given ([type=int]). *)
Record Args : Type := {
  verbose : bool;
  max_refs : Z;
  include_exported : bool;
  include_tests : bool;
  summary : bool;
  show_refs : bool;
  all_low_usage : bool
}.

(** The defaults of the parser in [main]. *)
Definition default_args : Args :=
  {| verbose := false; max_refs := 1; include_exported := false;
     include_tests := false; summary := false; show_refs := false;
     all_low_usage := false |}.

(** An entry of [dead_candidates]: [(func_name, ref_count, definitions)];
    an entry of [low_usage]: [(func_name, ref_count, def_count, definitions)]. *)
Abbreviation dead_entry := (string * nat * list site)%type.
Abbreviation low_entry := (string * nat * nat * list site)%type.

Record analysis : Type := {
  dead_candidates : list dead_entry;
  low_usage : list low_entry
}.

Definition conventional_names : list string := ["init"; "main"; "String"; "Error"].

(** The body of the loop of [process] over [sorted(functions.items())];
    [None] stands for the [IndexError] of [func_name[0]] on an empty name. *)
Definition analyze_item (args : Args) (counters : gmap string nat)
    (acc : analysis) (item : string * list site) : option analysis :=
  let '(func_name, definitions) := item in
  if negb (include_tests args) && Py.startswith func_name "Test" then Some acc
  else
    match func_name with
    | EmptyString => None
    | String c _ =>
        let is_exported := Py.is_upper c in
        if negb (include_exported args) && is_exported then Some acc
        else if bool_decide (func_name ∈ conventional_names) then Some acc
        else
          let ref_count := default 0 (counters !! func_name) in
          let def_count := length definitions in
          if bool_decide (ref_count ≤ def_count) then
            Some {| dead_candidates :=
                      dead_candidates acc ++ [(func_name, ref_count, definitions)];
                    low_usage := low_usage acc |}
          else if bool_decide (Z.of_nat ref_count ≤ max_refs args + Z.of_nat def_count)%Z then
            Some {| dead_candidates := dead_candidates acc;
                    low_usage :=
                      low_usage acc ++ [(func_name, ref_count, def_count, definitions)] |}
          else Some acc
    end.

Fixpoint analyze (args : Args) (counters : gmap string nat)
    (items : list (string * list site)) (acc : analysis) : option analysis :=
  match items with
  | [] => Some acc
  | item :: rest =>
      acc' ← analyze_item args counters acc item;
      analyze args counters rest acc'
  end.

(** The order of [sorted(functions.items())]: the keys of a dict differ, so
    the names decide the comparison of two items. *)
Definition item_le : relation (string * list site) := λ x y, String.le x.1 y.1.

Global Instance item_le_dec : RelDecision item_le.
Proof. intros x y. unfold item_le. apply _. Defined.

Definition sorted_items (functions : gmap string (list site))
    : list (string * list site) :=
  merge_sort item_le (map_to_list functions).

(** *** The report *)

Definition rule : string := Py.times "=" 70.
Definition thin_rule : string := Py.times "─" 70.

Definition banner (args : Args) (files : list path)
    (functions : gmap string (list site)) (a : analysis) : list string :=
  [ nl +:+ rule;
    "DEAD CODE ANALYSIS REPORT";
    rule;
    nl +:+ "Statistics:";
    "  - Go files scanned:      " +:+ pretty (length files);
    "  - Functions found:       " +:+ pretty (size functions);
    "  - Potentially dead:      " +:+ pretty (length (dead_candidates a));
    "  - Low usage (≤" +:+ pretty (max_refs args) +:+ " refs): "
      +:+ pretty (length (low_usage a)) ].

(** [f"  {filename}:{line_num:<6} {func_name}"] with what follows the name. *)
Definition detail_line (func_name suffix : string) (d : site) : string :=
  "  " +:+ d.1 +:+ ":" +:+ Py.ljust 6 (pretty d.2) +:+ " " +:+ func_name +:+ suffix.

(** The listing under [if show_refs and func_name in references]. *)
Definition refs_listing (args : Args) (t : tally) (title func_name : string)
    : list string :=
  match references t !! func_name with
  | Some refs =>
      if show_refs args then
        ["    " +:+ title +:+ " (" +:+ pretty (length refs) +:+ "):"]
        ++ (refs ≫= λ r, ["      " +:+ r.1; "        → " +:+ r.2])
        ++ [""]
      else []
  | None => []
  end.

Definition dead_lines (args : Args) (t : tally) (e : dead_entry) : list string :=
  let '(func_name, ref_count, definitions) := e in
  (detail_line func_name "" <$> definitions)
  ++ refs_listing args t "References" func_name.

Definition dead_section (args : Args) (t : tally) (a : analysis) : list string :=
  match dead_candidates a with
  | [] => [nl +:+ "✓ No dead code candidates found!"]
  | dead =>
      [ nl +:+ thin_rule;
        "POTENTIALLY DEAD CODE (only referenced at definition)";
        thin_rule ]
      ++ (dead ≫= dead_lines args t)
  end.

(** [actual_refs = ref_count - def_count] of an entry of [low_usage]. *)
Definition actual_refs (e : low_entry) : nat :=
  let '(func_name, ref_count, def_count, definitions) := e in
  ref_count - def_count.

Definition low_lines (args : Args) (t : tally) (e : low_entry) : list string :=
  let '(func_name, ref_count, def_count, definitions) := e in
  (detail_line func_name (" (" +:+ pretty (actual_refs e) +:+ " refs)") <$> definitions)
  ++ refs_listing args t "All references" func_name.

Definition low_section (args : Args) (t : tally) (a : analysis) : list string :=
  match low_usage a with
  | [] => []
  | low =>
      if summary args then []
      else
        let display_count :=
          if all_low_usage args then length low else Nat.min 20 (length low) in
        [ nl +:+ thin_rule;
          "LOW USAGE FUNCTIONS (≤" +:+ pretty (max_refs args)
            +:+ " references beyond definition)";
          thin_rule ]
        ++ (take display_count low ≫= low_lines args t)
        ++ (if negb (all_low_usage args) && bool_decide (20 < length low) then
              ["  ... and " +:+ pretty (length low - 20)
               +:+ " more (use --all-low-usage to show all)"]
            else [])
  end.

(** The closing note: its three lines of text, between two rules. *)
Definition caveat_text : list string :=
  [ "NOTE: Exported functions (capitalized) are excluded by default.";
    "      Use --include-exported to include them.";
    "      False positives may occur for reflection, interfaces, or external usage." ].

Definition caveat : list string :=
  [nl +:+ rule] ++ caveat_text ++ [rule +:+ nl].

(** Everything [process] prints on stdout once the analysis is done. *)
Definition report (args : Args) (files : list path)
    (functions : gmap string (list site)) (t : tally) (a : analysis) : list string :=
  banner args files functions a
  ++ (if summary args then []
      else dead_section args t a ++ low_section args t a ++ caveat).

(** What a run leaves behind: the two streams, and the exception that ended
    it, if one did. *)
Record Output : Type := {
  stdout : list string;
  stderr : list string;
  raised : option string
}.

(** [process(args)] *)
Definition process (args : Args) (fs : FileSystem) : Output :=
  let err0 := log "Starting dead code detection..." (verbose args) in
  match find_files fs (fs_cwd fs) "*.go" with
  | None => {| stdout := []; stderr := err0; raised := Some "ValueError" |}
  | Some files =>
      let err1 :=
        err0 ++ log ("Found " +:+ pretty (length files) +:+ " Go files") (verbose args) in
      match files with
      | [] =>
          {| stdout := [];
             stderr := err1 ++ ["[ERROR] No Go files found in current directory"];
             raised := None |}
      | _ =>
          let '(functions, err2) := find_function_definitions fs files (verbose args) in
          if bool_decide (functions = ∅) then
            {| stdout := [];
               stderr := err1 ++ err2 ++ ["[ERROR] No functions found"];
               raised := None |}
          else
            let '(t, err3) := count_references fs files (dom functions) (verbose args) in
            match analyze args (counters t) (sorted_items functions)
                    {| dead_candidates := []; low_usage := [] |} with
            | None =>
                {| stdout := []; stderr := err1 ++ err2 ++ err3;
                   raised := Some "IndexError" |}
            | Some a =>
                {| stdout := report args files functions t a;
                   stderr := err1 ++ err2 ++ err3;
                   raised := None |}
            end
      end
  end.

(** *** The stages of a run, by name

    What [process] binds to [files], [functions], [counters, references] and
    the two result lists on its way to the report. *)

Definition run_files (fs : FileSystem) : list path :=
  default [] (find_files fs (fs_cwd fs) "*.go").

Definition run_functions (fs : FileSystem) : gmap string (list site) :=
  (find_function_definitions fs (run_files fs) false).1.

Definition run_tally (fs : FileSystem) : tally :=
  (count_references fs (run_files fs) (dom (run_functions fs)) false).1.

Definition no_analysis : analysis := {| dead_candidates := []; low_usage := [] |}.

Definition run_analysis (args : Args) (fs : FileSystem) : analysis :=
  default no_analysis
    (analyze args (counters (run_tally fs)) (sorted_items (run_functions fs))
       no_analysis).

(** ** Vocabulary of the statements *)

(** The names of the symbols in the two result lists. *)
Definition dead_names (a : analysis) : list string := (dead_candidates a).*1.*1.
Definition low_names (a : analysis) : list string := (low_usage a).*1.*1.*1.

(** A symbol appears in the report: it has an entry in one of the lists. *)
Definition listed (a : analysis) (name : string) : Prop :=
  name ∈ dead_names a ∨ name ∈ low_names a.

(** The naming conventions of the exclusion rules. *)
Definition test_prefixed (name : string) : bool := Py.startswith name "Test".

Definition exported (name : string) : bool :=
  match name with String c _ => Py.is_upper c | EmptyString => false end.

(** The exclusion rules of the classifier, in the words of its three steps:
    test-prefixed unless tests are included, exported unless exported
    symbols are included, conventional names always. *)
Definition excluded (args : Args) (name : string) : bool :=
  (negb (include_tests args) && test_prefixed name)
  || (negb (include_exported args) && exported name)
  || bool_decide (name ∈ conventional_names).

(** The number of lines of a file, and of a list of files, that declare
    [name], and the number of tokens equal to [name]. *)
Definition line_declares (name : string) (nline : nat * string) : nat :=
  if bool_decide (func_name_of nline.2 = Some name) then 1 else 0.

Definition line_mentions (name : string) (nline : nat * string) : nat :=
  length (filter (λ word, word = name) (words_of nline.2)).

Definition declarations (fs : FileSystem) (name : string) (files : list path) : nat :=
  sum_list_with (λ filename,
    sum_list_with (line_declares name) (read_file fs filename).1) files.

Definition mentions (fs : FileSystem) (name : string) (files : list path) : nat :=
  sum_list_with (λ filename,
    sum_list_with (line_mentions name) (read_file fs filename).1) files.

(** The number of definition sites and the occurrence count of a name. *)
Definition sites (functions : gmap string (list site)) (name : string) : nat :=
  length (default [] (functions !! name)).

Definition tallied (t : tally) (name : string) : nat :=
  default 0 (counters t !! name).

(** Every symbol of the table has a name and at least one definition site. *)
Definition well_formed (functions : gmap string (list site)) : Prop :=
  ∀ name definitions,
    functions !! name = Some definitions → name ≠ "" ∧ definitions ≠ [].

(** An entry below [where_] that [find_files] keeps: no part of its path,
    the parts of [where_] included, is an excluded name. *)
Definition kept (where_ : path) (rel : path) : Prop :=
  in_excluded_dir (where_ ++ rel) = false.

Global Instance kept_dec where_ rel : Decision (kept where_ rel).
Proof. unfold kept. apply _. Defined.

(** What the loop of [process] adds to each list for one item. *)
Definition dead_of (args : Args) (counters : gmap string nat)
    (item : string * list site) : option dead_entry :=
  let ref_count := default 0 (counters !! item.1) in
  if excluded args item.1 then None
  else if bool_decide (ref_count ≤ length item.2) then Some (item.1, ref_count, item.2)
  else None.

Definition low_of (args : Args) (counters : gmap string nat)
    (item : string * list site) : option low_entry :=
  let ref_count := default 0 (counters !! item.1) in
  if excluded args item.1 then None
  else if bool_decide (ref_count ≤ length item.2) then None
  else if bool_decide (Z.of_nat ref_count ≤ max_refs args + Z.of_nat (length item.2))%Z
       then Some (item.1, ref_count, length item.2, item.2)
  else None.

(** The three ways a run ends. *)
Inductive outcome (args : Args) (fs : FileSystem) : Output → Prop :=
| NoFiles err :
    run_files fs = [] →
    outcome args fs
      {| stdout := [];
         stderr := err ++ ["[ERROR] No Go files found in current directory"];
         raised := None |}
| NoFunctions err :
    run_files fs ≠ [] → run_functions fs = ∅ →
    outcome args fs
      {| stdout := []; stderr := err ++ ["[ERROR] No functions found"];
         raised := None |}
| Reported err :
    run_files fs ≠ [] → run_functions fs ≠ ∅ →
    outcome args fs
      {| stdout := report args (run_files fs) (run_functions fs) (run_tally fs)
                     (run_analysis args fs);
         stderr := err;
         raised := None |}.

(** ** Small trees to run the model on *)

Module Demo.

Definition fs_of (cwd : path) (entries : list path)
    (files : list (path * contents)) : FileSystem :=
  {| fs_cwd := cwd;
     fs_entries := λ where_ pattern,
       if bool_decide (where_ = cwd ∧ pattern = "*.go") then entries else [];
     fs_open := λ p,
       default (OpenError "[Errno 2] No such file or directory")
               (list_to_map (M := gmap path contents) files !! p) |}.

Definition home : path := ["/"; "home"; "dev"; "app"].

(** Scenario A: one file declares [helper], nothing refers to it. *)
Definition scenario_a : FileSystem :=
  fs_of home [["a.go"]]
    [ (["a.go"], Text ["package a" +:+ nl; "func helper() {" +:+ nl; "}" +:+ nl]) ].

(** Scenario B: a second file calls [helper]. *)
Definition scenario_b : FileSystem :=
  fs_of home [["b.go"]; ["a.go"]]
    [ (["a.go"], Text ["package a" +:+ nl; "func helper() {" +:+ nl; "}" +:+ nl]);
      (["b.go"], Text ["package a" +:+ nl; "func main() {" +:+ nl;
                       tab +:+ "helper()" +:+ nl; "}" +:+ nl]) ].

(** Scenario B met by the directory scan in the other order. *)
Definition scenario_b_rescanned : FileSystem :=
  fs_of home [["a.go"]; ["b.go"]]
    [ (["a.go"], Text ["package a" +:+ nl; "func helper() {" +:+ nl; "}" +:+ nl]);
      (["b.go"], Text ["package a" +:+ nl; "func main() {" +:+ nl;
                       tab +:+ "helper()" +:+ nl; "}" +:+ nl]) ].

(** Scenario A, checked out below a directory named [vendor]. *)
Definition below_vendor : FileSystem :=
  fs_of ["/"; "srv"; "vendor"; "app"] [["a.go"]]
    [ (["a.go"], Text ["package a" +:+ nl; "func helper() {" +:+ nl; "}" +:+ nl]) ].

(** A file without any declaration. *)
Definition no_functions : FileSystem :=
  fs_of home [["a.go"]] [ (["a.go"], Text ["package a" +:+ nl]) ].

(** A file whose decoding fails after its first line was read. *)
Definition broken : FileSystem :=
  fs_of home [["a.go"]]
    [ (["a.go"], DecodeError ["func helper() {" +:+ nl]
                   "'utf-8' codec can't decode byte 0xff") ].

(** A file that cannot be opened, next to one that can. *)
Definition unreadable : FileSystem :=
  fs_of home [["a.go"]; ["locked.go"]]
    [ (["a.go"], Text ["package a" +:+ nl; "func helper() {" +:+ nl; "}" +:+ nl]);
      (["locked.go"], OpenError "[Errno 13] Permission denied: 'locked.go'") ].

(** A test function; its caller is the test runner, outside the tree. *)
Definition with_test : FileSystem :=
  fs_of home [["a_test.go"]]
    [ (["a_test.go"], Text ["func TestHelper(t *testing.T) {" +:+ nl; "}" +:+ nl]) ].

(** [--summary], [--max-refs=-1] and [--include-tests]. *)
Definition summary_args : Args :=
  {| verbose := false; max_refs := 1; include_exported := false;
     include_tests := false; summary := true; show_refs := false;
     all_low_usage := false |}.

Definition negative_args : Args :=
  {| verbose := false; max_refs := -1; include_exported := false;
     include_tests := false; summary := false; show_refs := false;
     all_low_usage := false |}.

Definition tests_args : Args :=
  {| verbose := false; max_refs := 1; include_exported := false;
     include_tests := true; summary := false; show_refs := false;
     all_low_usage := false |}.

End Demo.


(** ** Vocabulary of the further properties *)


(** The site a line adds to the definitions of [name], and the sites all
    lines of all files add, in the order of the scan. *)
Definition declared_at (name : string) (filename : path) (nline : nat * string)
    : option site :=
  if bool_decide (func_name_of nline.2 = Some name)
  then Some (path_str filename, nline.1) else None.

Definition sites_of (fs : FileSystem) (name : string) (files : list path) : list site :=
  files ≫= λ filename, omap (declared_at name filename) (read_file fs filename).1.

(** The references a line adds to those of [name], one for each token equal
    to [name], and the references all lines of all files add. *)
Definition mentioned_at (name : string) (filename : path) (nline : nat * string)
    : list reference :=
  (λ _, (path_str filename +:+ ":" +:+ pretty nline.1, Py.take 80 (Py.strip nline.2)))
    <$> filter (λ word, word = name) (words_of nline.2).

Definition references_of (fs : FileSystem) (name : string) (files : list path)
    : list reference :=
  files ≫= λ filename, (read_file fs filename).1 ≫= mentioned_at name filename.

Definition recorded (t : tally) (name : string) : list reference :=
  default [] (references t !! name).

(** The invariant of the scan: a name has a counter exactly when it has
    references, as many as the counter says, and then it is a known name. *)
Definition in_step (func_set : gset string) (t : tally) : Prop :=
  ∀ name,
    (counters t !! name = None ∧ references t !! name = None) ∨
    (name ∈ func_set ∧
     ∃ n refs, counters t !! name = Some n ∧ references t !! name = Some refs ∧
               length refs = n ∧ 1 ≤ n).



(** [args2] excludes and omits no more than [args1] does. *)
Definition at_least_as_permissive (args1 args2 : Args) : Prop :=
  (include_tests args1 = true → include_tests args2 = true) ∧
  (include_exported args1 = true → include_exported args2 = true) ∧
  (max_refs args1 ≤ max_refs args2)%Z.

(** Two command lines that differ at most in [--verbose]. *)
Definition same_analysis_flags (args1 args2 : Args) : Prop :=
  max_refs args1 = max_refs args2 ∧
  include_exported args1 = include_exported args2 ∧
  include_tests args1 = include_tests args2 ∧
  summary args1 = summary args2 ∧
  show_refs args1 = show_refs args2 ∧
  all_low_usage args1 = all_low_usage args2.

(** [--verbose] on top of the defaults. *)
Definition verbose_args : Args :=
  {| verbose := true; max_refs := 1; include_exported := false;
     include_tests := false; summary := false; show_refs := false;
     all_low_usage := false |}.

(** * Properties *)

(** ** Strings *)

Lemma append_cons (c : ascii) (a b : string) :
  String c a +:+ b = String c (a +:+ b).
Proof. reflexivity. Qed.

Lemma append_nil_l (s : string) : "" +:+ s = s.
Proof. reflexivity. Qed.

Lemma append_nil_r (s : string) : s +:+ "" = s.
Proof. induction s as [|c s IH]; [done | by rewrite append_cons, IH]. Qed.

Lemma append_assoc (a b c : string) : (a +:+ b) +:+ c = a +:+ (b +:+ c).
Proof. induction a as [|x a IH]; [done | by rewrite !append_cons, IH]. Qed.

Lemma append_length (a b : string) :
  String.length (a +:+ b) = String.length a + String.length b.
Proof. induction a as [|x a IH]; [done | by rewrite append_cons; simpl; rewrite IH]. Qed.

(** ** The regular-expression engine *)

Section engine.
Context {A : Type}.
Implicit Types (cls : ascii → bool) (s m : string) (prev : option ascii).

Lemma span_append cls s : (span cls s).1 +:+ (span cls s).2 = s.
Proof.
  induction s as [|c s IH]; simpl; [done|].
  destruct (cls c); [|done].
  destruct (span cls s) as [a b]; simpl in *. by rewrite append_cons, IH.
Qed.

Lemma span_all_in cls s : all_in cls (span cls s).1 = true.
Proof.
  induction s as [|c s IH]; simpl; [done|].
  destruct (cls c) eqn:Hc; [|done].
  destruct (span cls s) as [a b]; simpl in *. by rewrite Hc.
Qed.

Lemma span_rest cls s : starts_in cls (span cls s).2 = false.
Proof.
  induction s as [|c s IH]; simpl; [done|].
  destruct (cls c) eqn:Hc; [|by simpl; rewrite Hc].
  by destruct (span cls s) as [a b].
Qed.

(** A text of class characters followed by something that does not start
    in the class is what [span] cuts off. *)
Lemma span_unique cls a b :
  all_in cls a = true → starts_in cls b = false → span cls (a +:+ b) = (a, b).
Proof.
  intros Ha Hb. induction a as [|c a IH]; simpl in *.
  - rewrite append_nil_l. destruct b as [|c b]; simpl in *; [done | by rewrite Hb].
  - apply andb_prop in Ha as [Hc Ha]. by rewrite Hc, IH.
Qed.

(** A greedy repetition followed by something that cannot start where the
    repetition could go on: no length but the longest is ever accepted. *)
Lemma rep_greedy cls least prev s (k : string → option ascii → string → option A) :
  (∀ m c0 c s', cls c0 = true → cls c = true → k m (Some c0) (String c s') = None) →
  (least = 0 → ∀ c s', cls c = true → k "" prev (String c s') = None) →
  rep cls least prev s k =
    if bool_decide (least ≤ String.length (span cls s).1)
    then k (span cls s).1 (after prev (span cls s).1) (span cls s).2
    else None.
Proof.
  revert least prev k. induction s as [|c s IH]; intros least prev k Hk H0.
  - destruct least; [done|]. cbn [rep span fst String.length].
    case_bool_decide; [lia | done].
  - cbn [rep span]. destruct (cls c) eqn:Hc.
    + rewrite (IH (pred least) (Some c) (λ m, k (String c m))); first last.
      { intros _ c1 s1 Hc1. by apply Hk. }
      { intros m c0 c1 s1 ??. by apply Hk. }
      destruct (span cls s) as [a b] eqn:Hsp. cbn [fst snd String.length after].
      destruct least as [|least]; cbn [pred].
      * rewrite !bool_decide_eq_true_2 by lia.
        destruct (k (String c a) (after (Some c) a) b) eqn:Hka; [done|].
        destruct H0 with c s; done.
      * destruct (decide (least ≤ String.length a)).
        -- rewrite !bool_decide_eq_true_2 by lia. by destruct (k _ _ _).
        -- by rewrite !bool_decide_eq_false_2 by lia.
    + cbn [fst snd String.length after]. destruct least; [done|].
      case_bool_decide; [lia | done].
Qed.

(** A greedy repetition whose continuation accepts the longest run. *)
Lemma rep_longest cls least prev s (k : string → option ascii → string → option A) a :
  least ≤ String.length (span cls s).1 →
  k (span cls s).1 (after prev (span cls s).1) (span cls s).2 = Some a →
  rep cls least prev s k = Some a.
Proof.
  revert least prev k. induction s as [|c s IH]; intros least prev k Hl Hk; simpl in *.
  - destruct least; [done | lia].
  - destruct (cls c) eqn:Hc; simpl in *.
    + destruct (span cls s) as [a' b] eqn:Hsp; simpl in *.
      rewrite (IH (pred least) (Some c) (λ m, k (String c m))); [done| |done].
      lia.
    + destruct least; [done | lia].
Qed.

(** A repetition that needs a character fails where there is none. *)
Lemma rep_none cls least prev s (k : string → option ascii → string → option A) :
  String.length (span cls s).1 < least → rep cls least prev s k = None.
Proof.
  revert least prev k. induction s as [|c s IH]; intros least prev k Hl; simpl in *.
  - destruct least; [lia | done].
  - destruct (cls c) eqn:Hc; simpl in *.
    + destruct (span cls s) as [a' b] eqn:Hsp; simpl in *.
      rewrite IH by lia. destruct least; [lia | done].
    + destruct least; [lia | done].
Qed.
End engine.

Lemma after_all_in cls prev m :
  all_in cls m = true → m ≠ "" → ∃ c, after prev m = Some c ∧ cls c = true.
Proof.
  revert prev. induction m as [|c m IH]; intros prev Hm Hne; [done|].
  simpl in *. apply andb_prop in Hm as [Hc Hm].
  destruct m as [|c' m]; [by exists c|]. by apply IH.
Qed.

Lemma span_nonempty cls c s : cls c = true → (span cls (String c s)).1 ≠ "".
Proof. intros Hc. simpl. rewrite Hc. by destruct (span cls s). Qed.

Lemma span_empty cls s : starts_in cls s = false → span cls s = ("", s).
Proof. destruct s as [|c s]; simpl; [done|]. by intros ->. Qed.

Lemma attempt_WORD_BOUNDARY prev s :
  attempt WORD_BOUNDARY prev s =
    if negb (word_before prev) && word_after s
    then Some {| group0 := (span Py.is_word s).1; group1 := Some (span Py.is_word s).1 |}
    else None.
Proof.
  unfold attempt, WORD_BOUNDARY. cbn [run].
  destruct (word_after s) eqn:Hs.
  - destruct (word_before prev) eqn:Hp; cbn [xorb negb andb]; [done|].
    rewrite rep_greedy; [| |done].
    + destruct s as [|c s]; [done|]. 
      pose proof (span_nonempty Py.is_word c s Hs) as Hne.
      pose proof (span_all_in Py.is_word (String c s)) as Hall.
      pose proof (span_rest Py.is_word (String c s)) as Hrest.
      destruct (span Py.is_word (String c s)) as [a b]; cbn [fst snd] in *.
      destruct (after_all_in _ prev a Hall Hne) as (c' & -> & Hc').
      rewrite bool_decide_eq_true_2 by (destruct a; [done | simpl; lia]).
      unfold word_before, word_after. change (match b with String c0 _ => Py.is_word c0 | "" => false end) with (starts_in Py.is_word b).
      rewrite Hc', Hrest. cbn [xorb]. by rewrite append_nil_l, append_nil_r.
    + intros m c0 c s' Hc0 Hc. unfold word_before, word_after. by rewrite Hc0, Hc.
  - rewrite andb_false_r. destruct (xorb _ _); [|done].
    apply rep_none. rewrite span_empty by done. simpl; lia.
Qed.

Lemma after_append prev a b : after prev (a +:+ b) = after (after prev a) b.
Proof. revert prev. induction a as [|c a IH]; intros prev; [done|]. apply IH. Qed.

Lemma scan_skip r prev w rest :
  scan r prev (w +:+ rest) (String.length w) = scan r (after prev w) rest 0.
Proof.
  revert prev. induction w as [|c w IH]; intros prev; [done|]. apply IH.
Qed.

Lemma scan_word_start prev c s :
  word_before prev = false → Py.is_word c = true →
  scan WORD_BOUNDARY prev (String c s) 0 =
    {| group0 := (span Py.is_word (String c s)).1;
       group1 := Some (span Py.is_word (String c s)).1 |}
    :: scan WORD_BOUNDARY (after prev (span Py.is_word (String c s)).1)
         (span Py.is_word (String c s)).2 0.
Proof.
  intros Hp Hc. cbn [scan]. rewrite attempt_WORD_BOUNDARY, Hp.
  cbn [word_after negb andb]. rewrite Hc. f_equal.
  pose proof (span_append Py.is_word s) as Hs.
  cbn [span group0]. rewrite Hc. destruct (span Py.is_word s) as [a b]; cbn [fst snd] in *.
  cbn [String.length pred after]. rewrite <-Hs at 1. apply scan_skip.
Qed.

Lemma scan_no_start prev c s :
  negb (word_before prev) && Py.is_word c = false →
  scan WORD_BOUNDARY prev (String c s) 0 = scan WORD_BOUNDARY (Some c) s 0.
Proof.
  intros H. cbn [scan]. rewrite attempt_WORD_BOUNDARY. cbn [word_after]. by rewrite H.
Qed.

Lemma scan_finds_word n : ∀ pre prev name post,
  String.length pre ≤ n →
  word_before (after prev pre) = false →
  name ≠ "" → all_in Py.is_word name = true → starts_in Py.is_word post = false →
  {| group0 := name; group1 := Some name |}
    ∈ scan WORD_BOUNDARY prev (pre +:+ name +:+ post) 0.
Proof.
  induction n as [n IH] using lt_wf_ind.
  intros pre prev name post Hn Hpre Hne Hall Hpost.
  destruct pre as [|c pre].
  - rewrite append_nil_l. destruct name as [|c name]; [done|].
    cbn in Hpre. cbn in Hall. apply andb_prop in Hall as [Hc Hall].
    rewrite append_cons, scan_word_start by done.
    rewrite <-append_cons, span_unique; [left | by cbn; rewrite Hc, Hall | done].
  - rewrite append_cons.
    destruct (negb (word_before prev) && Py.is_word c) eqn:Hstart.
    + apply andb_prop in Hstart as [Hp%negb_true_iff Hc].
      rewrite scan_word_start by done. right.
      rewrite <-append_cons.
      pose proof (span_append Py.is_word (String c pre)) as Happ.
      pose proof (span_all_in Py.is_word (String c pre)) as Ha.
      pose proof (span_rest Py.is_word (String c pre)) as Hb.
      pose proof (span_nonempty Py.is_word c pre Hc) as Hne0.
      destruct (span Py.is_word (String c pre)) as [a b]; cbn [fst snd] in *.
      rewrite <-Happ, after_append in Hpre.
      destruct b as [|cb b].
      { cbn in Hpre. destruct (after_all_in _ prev a Ha Hne0) as (c' & Hc' & Hw).
        rewrite Hc' in Hpre. cbn in Hpre. congruence. }
      rewrite <-Happ, append_assoc, span_unique; [|done|done].
      cbn [fst snd]. apply (IH (String.length (String cb b))); [| lia | done..].
      apply (f_equal String.length) in Happ. rewrite append_length in Happ.
      destruct a; [done|]. cbn in *. lia.
    + rewrite scan_no_start by done.
      apply (IH (String.length pre)); [cbn in Hn; lia | lia | done..].
Qed.

Lemma words_of_finds_word pre name post :
  word_before (after None pre) = false →
  name ≠ "" → all_in Py.is_word name = true → starts_in Py.is_word post = false →
  name ∈ words_of (pre +:+ name +:+ post).
Proof.
  intros. unfold words_of, finditer. apply list_elem_of_omap.
  exists {| group0 := name; group1 := Some name |}. split; [|done].
  by eapply scan_finds_word.
Qed.

Lemma space_not_word c : Py.is_space c = true → Py.is_word c = false.
Proof. by destruct c as [[] [] [] [] [] [] [] []]. Qed.

Section engine2.
Context {A : Type}.
Implicit Types (cls : ascii → bool) (s m : string) (prev : option ascii).

(** Whatever a repetition accepts: some run of class characters, long
    enough, with a continuation that accepted what follows it. *)
Lemma rep_Some cls least prev s (k : string → option ascii → string → option A) a :
  rep cls least prev s k = Some a →
  ∃ m s', s = m +:+ s' ∧ all_in cls m = true ∧ least ≤ String.length m ∧
    k m (after prev m) s' = Some a.
Proof.
  revert least prev k. induction s as [|c s IH]; intros least prev k H.
  - cbn [rep] in H. destruct least; [|done]. by exists "", "".
  - cbn [rep] in H. destruct (cls c) eqn:Hc.
    + destruct (rep cls (pred least) (Some c) s _) as [a'|] eqn:Hrep.
      * simplify_eq. apply IH in Hrep as (m & s' & -> & Hm & Hl & Hk).
        exists (String c m), s'. cbn. rewrite Hc. repeat split; [done | lia | done].
      * destruct least; [|done]. by exists "", (String c s).
    + destruct least; [|done]. by exists "", (String c s).
Qed.

(** With a continuation that accepts anything, a repetition takes the
    longest run. *)
Lemma rep_total cls least prev s (k : string → option ascii → string → option A) a :
  (∀ m p s', is_Some (k m p s')) →
  rep cls least prev s k = Some a →
  least ≤ String.length (span cls s).1 ∧
  k (span cls s).1 (after prev (span cls s).1) (span cls s).2 = Some a.
Proof.
  intros Hk H.
  destruct (decide (least ≤ String.length (span cls s).1)) as [Hl|Hl].
  - split; [done|].
    destruct (Hk (span cls s).1 (after prev (span cls s).1) (span cls s).2) as [a' Ha'].
    rewrite (rep_longest _ _ _ _ _ _ Hl Ha') in H. congruence.
  - rewrite rep_none in H by lia. done.
Qed.
End engine2.

Lemma word_run_shape p s m0 M :
  rep Py.is_word 1 p s
    (λ m1 _ _, Some {| group0 := m0 m1; group1 := Some m1 |}) = Some M →
  ∃ name post, s = name +:+ post ∧ group1 M = Some name ∧
    name ≠ "" ∧ all_in Py.is_word name = true ∧ starts_in Py.is_word post = false.
Proof.
  intros H. apply rep_total in H as [Hl H]; [|by eauto].
  exists (span Py.is_word s).1, (span Py.is_word s).2.
  rewrite span_append, span_all_in, span_rest. simplify_eq. cbn [group1].
  repeat split; try done. intros Hn. rewrite Hn in Hl. cbn in Hl. lia.
Qed.

Lemma func_name_of_shape line name :
  func_name_of line = Some name →
  ∃ pre post, line = pre +:+ name +:+ post ∧
    word_before (after None pre) = false ∧
    name ≠ "" ∧ all_in Py.is_word name = true ∧ starts_in Py.is_word post = false.
Proof.
  assert (Hsp : ∀ prev pre m, all_in Py.is_space m = true → 1 ≤ String.length m →
    word_before (after prev (pre +:+ m)) = false).
  { intros prev pre m Hm Hl. rewrite after_append.
    destruct (after_all_in Py.is_space (after prev pre) m Hm) as (c & -> & Hc).
    - intros ->. cbn in Hl. lia.
    - by apply space_not_word. }
  unfold func_name_of, re_match, attempt, FUNC_PATTERN. cbn [run Str].
  intros H. apply bind_Some in H as (M & H & HM).
  apply rep_Some in H as (m & s & -> & _ & _ & H).
  destruct s as [|c s]; [done|]. case_bool_decide; [subst c|done].
  destruct s as [|c s]; [done|]. case_bool_decide; [subst c|done].
  destruct s as [|c s]; [done|]. case_bool_decide; [subst c|done].
  destruct s as [|c s]; [done|]. case_bool_decide; [subst c|done].
  apply rep_Some in H as (m0 & s4 & -> & Hm0 & Hl0 & H).
  match type of H with match ?inner with _ => _ end = _ =>
    destruct inner as [M'|] eqn:Hin end.
  - simplify_eq. destruct s4 as [|c s5]; [done|]. case_bool_decide; [subst c|done].
    apply rep_Some in Hin as (m1 & s6 & -> & _ & _ & H).
    destruct s6 as [|c s7]; [done|]. case_bool_decide; [subst c|done].
    apply rep_Some in H as (m2 & s8 & -> & Hm2 & Hl2 & H).
    apply word_run_shape in H as (name' & post & -> & Hg & ? & ? & ?).
    rewrite Hg in HM. simplify_eq.
    exists (m +:+ "func" +:+ m0 +:+ "(" +:+ m1 +:+ ")" +:+ m2), post. split.
    { by rewrite !append_assoc. }
    split; [|done].
    rewrite <-!append_assoc. by apply Hsp.
  - apply word_run_shape in H as (name' & post & -> & Hg & ? & ? & ?).
    rewrite Hg in HM. simplify_eq.
    exists (m +:+ "func" +:+ m0), post. split.
    { by rewrite !append_assoc. }
    split; [|done].
    rewrite <-!append_assoc. by apply Hsp.
Qed.

Lemma func_name_in_words line name :
  func_name_of line = Some name → name ∈ words_of line.
Proof.
  intros (pre & post & -> & ? & ? & ? & ?)%func_name_of_shape.
  by apply words_of_finds_word.
Qed.

Lemma func_name_nonempty line name : func_name_of line = Some name → name ≠ "".
Proof. by intros (pre & post & -> & ? & ? & ? & ?)%func_name_of_shape. Qed.

(** ** The two passes over the files *)

Lemma foldl_invariant {S X} (P : S → Prop) (f : S → X → S) (l : list X) (s : S) :
  (∀ s x, P s → P (f s x)) → P s → P (foldl f s l).
Proof. intros Hf. revert s. induction l as [|x l IH]; intros s Hs; simpl; auto. Qed.

Lemma foldl_measure {S X} (μ : S → nat) (w : X → nat) (f : S → X → S)
    (l : list X) (s : S) :
  (∀ s x, μ (f s x) = μ s + w x) → μ (foldl f s l) = μ s + sum_list_with w l.
Proof.
  intros Hf. revert s. induction l as [|x l IH]; intros s; simpl; [lia|].
  rewrite IH, Hf. lia.
Qed.

Lemma sum_list_with_mono {X} (f g : X → nat) (l : list X) :
  (∀ x, f x ≤ g x) → sum_list_with f l ≤ sum_list_with g l.
Proof. intros H. induction l as [|x l IH]; simpl; [lia|]. specialize (H x). lia. Qed.

Lemma dict_append_lookup {V} (k name : string) (x : V) (d : gmap string (list V)) :
  default [] (dict_append k x d !! name) =
    default [] (d !! name) ++ (if bool_decide (k = name) then [x] else []).
Proof.
  unfold dict_append. case_bool_decide as Hk.
  - subst. by rewrite lookup_insert_eq.
  - rewrite lookup_insert_ne by done. by rewrite app_nil_r.
Qed.

Lemma definitions_in_line_sites filename functions nline name :
  sites (definitions_in_line filename functions nline) name =
    sites functions name + line_declares name nline.
Proof.
  unfold sites, definitions_in_line, line_declares.
  destruct (func_name_of nline.2) as [func_name|] eqn:Hf.
  - rewrite dict_append_lookup, length_app.
    destruct (decide (func_name = name)) as [->|Hne].
    + by rewrite !bool_decide_eq_true_2.
    + rewrite !bool_decide_eq_false_2 by congruence. done.
  - rewrite bool_decide_eq_false_2 by done. lia.
Qed.

Lemma find_function_definitions_sites fs files verbose name :
  sites (find_function_definitions fs files verbose).1 name = declarations fs name files.
Proof.
  unfold find_function_definitions, declarations. cbn [fst].
  rewrite (foldl_measure (λ d, sites d name)
    (λ filename, sum_list_with (line_declares name) (read_file fs filename).1)).
  - unfold sites. by rewrite lookup_empty.
  - intros d filename. unfold definitions_in_file.
    apply (foldl_measure (λ d, sites d name)). intros. apply definitions_in_line_sites.
Qed.

Lemma find_function_definitions_well_formed fs files verbose :
  well_formed (find_function_definitions fs files verbose).1.
Proof.
  unfold find_function_definitions. cbn [fst].
  apply foldl_invariant; [|by intros ?? ?%lookup_empty_Some].
  intros d filename Hd. unfold definitions_in_file.
  apply foldl_invariant; [|done]. clear. intros d [number line] Hd.
  unfold definitions_in_line. cbn [fst snd].
  destruct (func_name_of line) as [func_name|] eqn:Hf; [|done].
  intros name definitions. unfold dict_append.
  destruct (decide (func_name = name)) as [->|Hne].
  - rewrite lookup_insert_eq. intros [= <-]. split.
    + by eapply func_name_nonempty.
    + by destruct (default [] (d !! name)).
  - rewrite lookup_insert_ne by done. apply Hd.
Qed.

Lemma count_word_tallied func_set filename nline t word name :
  name ∈ func_set →
  tallied (count_word func_set filename nline t word) name =
    tallied t name + (if bool_decide (word = name) then 1 else 0).
Proof.
  intros Hin. unfold tallied, count_word.
  destruct (decide (word = name)) as [->|Hne].
  - rewrite !bool_decide_eq_true_2 by done. cbn [counters].
    by rewrite lookup_insert_eq.
  - rewrite (bool_decide_eq_false_2 (word = name)) by done.
    case_bool_decide; cbn [counters]; [|lia].
    rewrite lookup_insert_ne by done. lia.
Qed.

Lemma count_line_tallied func_set filename t nline name :
  name ∈ func_set →
  tallied (count_line func_set filename t nline) name =
    tallied t name + line_mentions name nline.
Proof.
  intros Hin. unfold count_line, line_mentions.
  generalize (words_of nline.2). intros words. revert t.
  induction words as [|word words IH]; intros t; [simpl; lia|].
  cbn [foldl]. rewrite IH, count_word_tallied by done.
  rewrite filter_cons. case_bool_decide; case_decide; simpl; (done || lia).
Qed.

Lemma count_references_tallied fs files func_set verbose name :
  name ∈ func_set →
  tallied (count_references fs files func_set verbose).1 name = mentions fs name files.
Proof.
  intros Hin. unfold count_references, mentions. cbn [fst].
  rewrite (foldl_measure (λ t, tallied t name)
    (λ filename, sum_list_with (line_mentions name) (read_file fs filename).1)).
  - unfold tallied. cbn. by rewrite lookup_empty.
  - intros t filename. unfold count_file.
    apply (foldl_measure (λ t, tallied t name)). intros. by apply count_line_tallied.
Qed.

Lemma line_declares_mentions name nline :
  line_declares name nline ≤ line_mentions name nline.
Proof.
  unfold line_declares, line_mentions. case_bool_decide as Hf; [|lia].
  apply func_name_in_words in Hf.
  assert (name ∈ filter (λ word, word = name) (words_of nline.2)) as Hin
    by by apply list_elem_of_filter.
  destruct (filter _ _); [by apply elem_of_nil in Hin | simpl; lia].
Qed.

Lemma declarations_mentions fs name files :
  declarations fs name files ≤ mentions fs name files.
Proof.
  apply sum_list_with_mono. intros filename.
  apply sum_list_with_mono. intros nline. apply line_declares_mentions.
Qed.

(** ** Orders and sorting *)

Global Instance path_le_total : Total path_le.
Proof.
  intros p. unfold path_le. induction p as [|a p IH]; intros [|b q]; simpl; auto.
  destruct (decide (a = b)) as [->|Hne].
  - rewrite !bool_decide_eq_true_2 by done. apply IH.
  - rewrite (bool_decide_eq_false_2 (a = b)), (bool_decide_eq_false_2 (b = a))
      by congruence.
    destruct (total String.le a b); [left | right]; by apply bool_decide_pack.
Qed.

Global Instance path_le_trans : Transitive path_le.
Proof.
  intros p. unfold path_le.
  induction p as [|a p IH]; intros [|b q] [|c r]; simpl; try done.
  destruct (decide (a = b)) as [->|Hab].
  - rewrite (bool_decide_eq_true_2 (b = b)) by done.
    case_bool_decide; [apply IH | done].
  - rewrite (bool_decide_eq_false_2 (a = b)) by done.
    intros Hle%bool_decide_unpack.
    destruct (decide (b = c)) as [->|Hbc].
    + rewrite (bool_decide_eq_true_2 (c = c)) by done.
      rewrite (bool_decide_eq_false_2 (a = c)) by done.
      intros _. by apply bool_decide_pack.
    + rewrite (bool_decide_eq_false_2 (b = c)) by done.
      intros Hle'%bool_decide_unpack.
      case_bool_decide as Hac.
      * subst c. destruct Hab. by apply (anti_symm String.le).
      * apply bool_decide_pack. by etrans.
Qed.

Global Instance path_le_anti_symm : AntiSymm (=) path_le.
Proof.
  intros p. unfold path_le.
  induction p as [|a p IH]; intros [|b q]; simpl; try done.
  destruct (decide (a = b)) as [->|Hab].
  - rewrite !bool_decide_eq_true_2 by done. intros ??. f_equal. by apply IH.
  - rewrite (bool_decide_eq_false_2 (a = b)), (bool_decide_eq_false_2 (b = a))
      by congruence.
    intros ?%bool_decide_unpack ?%bool_decide_unpack.
    destruct Hab. by apply (anti_symm String.le).
Qed.

Global Instance item_le_total : Total item_le.
Proof. intros x y. unfold item_le. apply (total String.le). Qed.

Global Instance item_le_trans : Transitive item_le.
Proof. intros x y z. unfold item_le. apply (transitivity (R := String.le)). Qed.

Lemma sorted_items_elem_of functions name definitions :
  (name, definitions) ∈ sorted_items functions ↔ functions !! name = Some definitions.
Proof.
  unfold sorted_items. rewrite merge_sort_Permutation. apply elem_of_map_to_list.
Qed.

(** ** The tree walker *)

Lemma relative_to_app (where_ rel : path) : relative_to (where_ ++ rel) where_ = Some rel.
Proof.
  induction where_ as [|a w IH]; simpl; [by destruct rel|].
  by rewrite bool_decide_eq_true_2.
Qed.

Lemma find_files_eq fs where_ pattern :
  find_files fs where_ pattern =
    Some (merge_sort path_le (filter (kept where_) (fs_entries fs where_ pattern))).
Proof.
  unfold find_files, rglob.
  assert (mapM (λ p, relative_to p where_)
           (filter (λ p, in_excluded_dir p = false)
              ((λ rel, where_ ++ rel) <$> fs_entries fs where_ pattern))
          = Some (filter (kept where_) (fs_entries fs where_ pattern))) as ->; [|done].
  apply mapM_Some.
  induction (fs_entries fs where_ pattern) as [|rel rels IH]; [constructor|].
  rewrite fmap_cons, !filter_cons. unfold kept at 1.
  destruct (decide (in_excluded_dir (where_ ++ rel) = false)); [|done].
  constructor; [apply relative_to_app | done].
Qed.


(** ** The classifier *)

Lemma test_prefixed_exported name : test_prefixed name = true → exported name = true.
Proof.
  unfold test_prefixed, Py.startswith, exported.
  destruct name as [|c name]; [done|].
  by destruct c as [[] [] [] [] [] [] [] []].
Qed.

Lemma analyze_item_eq args counters acc item :
  analyze_item args counters acc item =
    if bool_decide (item.1 = "") then None
    else Some {| dead_candidates :=
                   dead_candidates acc ++ option_list (dead_of args counters item);
                 low_usage := low_usage acc ++ option_list (low_of args counters item) |}.
Proof.
  destruct item as [name definitions], acc as [dead low].
  unfold analyze_item, dead_of, low_of, excluded. cbn [fst snd dead_candidates low_usage].
  destruct name as [|c name].
  { rewrite (bool_decide_eq_true_2 ("" = "")) by done.
    by destruct (include_tests args). }
  rewrite (bool_decide_eq_false_2 (String c name = "")) by done.
  change (exported (String c name)) with (Py.is_upper c).
  change (Py.startswith (String c name) "Test") with (test_prefixed (String c name)).
  destruct (negb (include_tests args) && test_prefixed (String c name));
    cbn [orb option_list]; [by rewrite !app_nil_r|].
  destruct (negb (include_exported args) && Py.is_upper c);
    cbn [orb option_list]; [by rewrite !app_nil_r|].
  destruct (bool_decide (String c name ∈ conventional_names));
    cbn [orb option_list]; [by rewrite !app_nil_r|].
  repeat case_bool_decide; cbn [option_list]; by rewrite ?app_nil_r.
Qed.

Lemma analyze_eq args counters items acc :
  analyze args counters items acc =
    if bool_decide (Forall (λ item, item.1 ≠ "") items)
    then Some {| dead_candidates :=
                   dead_candidates acc ++ omap (dead_of args counters) items;
                 low_usage := low_usage acc ++ omap (low_of args counters) items |}
    else None.
Proof.
  revert acc. induction items as [|item items IH]; intros acc.
  - rewrite bool_decide_eq_true_2 by constructor.
    cbn [analyze omap list_omap]. rewrite !app_nil_r. by destruct acc.
  - cbn [analyze]. rewrite analyze_item_eq.
    destruct (decide (item.1 = "")) as [He|He].
    + rewrite bool_decide_eq_true_2 by done.
      rewrite bool_decide_eq_false_2; [done|]. by intros [? _]%Forall_cons.
    + rewrite (bool_decide_eq_false_2 (item.1 = "")) by done. cbn [mbind option_bind].
      rewrite IH. cbn [dead_candidates low_usage omap list_omap].
      destruct (decide (Forall (λ item, item.1 ≠ "") items)) as [Hf|Hf].
      * rewrite !bool_decide_eq_true_2 by (done || by constructor).
        rewrite <-!app_assoc.
        by destruct (dead_of args counters item), (low_of args counters item).
      * rewrite !bool_decide_eq_false_2; [done | by intros [_ ?]%Forall_cons | done].
Qed.

Section classified.
Context (args : Args) (counters : gmap string nat)
        (functions : gmap string (list site)) (a : analysis).
Context (Ha : analyze args counters (sorted_items functions) no_analysis = Some a).

Lemma dead_candidates_eq :
  dead_candidates a = omap (dead_of args counters) (sorted_items functions).
Proof using Ha. rewrite analyze_eq in Ha. case_bool_decide; by simplify_eq. Qed.

Lemma low_usage_eq :
  low_usage a = omap (low_of args counters) (sorted_items functions).
Proof using Ha. rewrite analyze_eq in Ha. case_bool_decide; by simplify_eq. Qed.

Lemma dead_candidates_elem_of e :
  e ∈ dead_candidates a ↔
  ∃ name definitions, functions !! name = Some definitions ∧
    dead_of args counters (name, definitions) = Some e.
Proof using Ha.
  rewrite dead_candidates_eq, list_elem_of_omap. split.
  - intros ([name definitions] & Hin%sorted_items_elem_of & He). eauto.
  - intros (name & definitions & Hin%sorted_items_elem_of & He). eauto.
Qed.

Lemma low_usage_elem_of e :
  e ∈ low_usage a ↔
  ∃ name definitions, functions !! name = Some definitions ∧
    low_of args counters (name, definitions) = Some e.
Proof using Ha.
  rewrite low_usage_eq, list_elem_of_omap. split.
  - intros ([name definitions] & Hin%sorted_items_elem_of & He). eauto.
  - intros (name & definitions & Hin%sorted_items_elem_of & He). eauto.
Qed.

Lemma dead_names_elem_of name :
  name ∈ dead_names a ↔
  ∃ definitions, functions !! name = Some definitions ∧
    is_Some (dead_of args counters (name, definitions)).
Proof using Ha.
  unfold dead_names. split.
  - intros (? & -> & (ne & -> & (n & definitions & Hf & Hd)%dead_candidates_elem_of)
              %list_elem_of_fmap)%list_elem_of_fmap.
    assert (ne.1.1 = n) as Hn.
    { unfold dead_of in Hd. repeat case_match; by simplify_eq. }
    rewrite Hn. eauto.
  - intros (definitions & Hf & e & He).
    apply list_elem_of_fmap. exists e.1. split.
    { unfold dead_of in He. repeat case_match; by simplify_eq. }
    apply list_elem_of_fmap.
    exists e. split; [done|]. apply dead_candidates_elem_of. eauto.
Qed.

Lemma low_names_elem_of name :
  name ∈ low_names a ↔
  ∃ definitions, functions !! name = Some definitions ∧
    is_Some (low_of args counters (name, definitions)).
Proof using Ha.
  unfold low_names. split.
  - intros (? & -> & (? & -> & (ne & -> & (n & definitions & Hf & Hd)%low_usage_elem_of)
              %list_elem_of_fmap)%list_elem_of_fmap)%list_elem_of_fmap.
    assert (ne.1.1.1 = n) as Hn.
    { unfold low_of in Hd. repeat case_match; by simplify_eq. }
    rewrite Hn. eauto.
  - intros (definitions & Hf & e & He).
    apply list_elem_of_fmap. exists e.1.1. split.
    { unfold low_of in He. repeat case_match; by simplify_eq. }
    apply list_elem_of_fmap. exists e.1. split; [done|].
    apply list_elem_of_fmap.
    exists e. split; [done|]. apply low_usage_elem_of. eauto.
Qed.

Lemma listed_iff name :
  listed a name ↔
  ∃ definitions, functions !! name = Some definitions ∧
    excluded args name = false ∧
    (Z.of_nat (default 0%nat (counters !! name))
       ≤ Z.max 0 (max_refs args) + Z.of_nat (length definitions))%Z.
Proof using Ha.
  unfold listed. rewrite dead_names_elem_of, low_names_elem_of. split.
  - intros [(definitions & Hf & e & He)|(definitions & Hf & e & He)];
      exists definitions; (split; [done|]);
      unfold dead_of, low_of in He; cbn [fst snd] in He;
      (destruct (excluded args name); [done|]);
      repeat case_bool_decide; simplify_eq; (split; [done | lia]).
  - intros (definitions & Hf & Hex & Hle).
    destruct (decide (default 0 (counters !! name) ≤ length definitions)).
    + left. exists definitions. split; [done|]. unfold dead_of. cbn [fst snd].
      rewrite Hex, bool_decide_eq_true_2 by done. eauto.
    + right. exists definitions. split; [done|]. unfold low_of. cbn [fst snd].
      rewrite Hex, bool_decide_eq_false_2, bool_decide_eq_true_2 by (done || lia).
      eauto.
Qed.
End classified.

(** ** Runs *)

Lemma run_files_eq fs :
  find_files fs (fs_cwd fs) "*.go" = Some (run_files fs).
Proof. unfold run_files. by rewrite find_files_eq. Qed.

Lemma run_functions_well_formed fs : well_formed (run_functions fs).
Proof. apply find_function_definitions_well_formed. Qed.

Lemma run_analysis_eq args fs :
  analyze args (counters (run_tally fs)) (sorted_items (run_functions fs)) no_analysis
  = Some (run_analysis args fs).
Proof.
  unfold run_analysis. rewrite analyze_eq, bool_decide_eq_true_2; [done|].
  apply Forall_forall. intros [name definitions] Hin%sorted_items_elem_of.
  by apply run_functions_well_formed in Hin as [? _].
Qed.

Lemma process_outcome args fs : outcome args fs (process args fs).
Proof.
  unfold process. rewrite run_files_eq.
  destruct (run_files fs) as [|file files] eqn:Hfiles.
  { by apply NoFiles. }
  rewrite <-Hfiles.
  pose proof (run_analysis_eq args fs) as Ha.
  unfold run_tally, run_functions, no_analysis in Ha.
  unfold find_function_definitions, count_references in *. cbn [fst] in Ha.
  case_bool_decide as Hfun.
  - rewrite app_assoc. apply NoFunctions; [by rewrite Hfiles | done].
  - rewrite Ha. apply Reported; [by rewrite Hfiles | done].
Qed.

(** ** Runs over the same tree *)

Lemma foldl_ext_all {S X} (f g : S → X → S) (l : list X) (s : S) :
  (∀ s x, f s x = g s x) → foldl f s l = foldl g s l.
Proof. intros H. revert s. induction l as [|x l IH]; intros s; simpl; [done|]. by rewrite H, IH. Qed.

Section same_contents.
Context (fs1 fs2 : FileSystem).
Context (Hopen : ∀ p, fs_open fs1 p = fs_open fs2 p).

Lemma read_file_ext p : read_file fs1 p = read_file fs2 p.
Proof using Hopen. unfold read_file. by rewrite Hopen. Qed.

Lemma find_function_definitions_ext files verbose :
  find_function_definitions fs1 files verbose
  = find_function_definitions fs2 files verbose.
Proof using Hopen.
  unfold find_function_definitions.
  assert (foldl (definitions_in_file fs1) ∅ files
          = foldl (definitions_in_file fs2) ∅ files) as ->.
  { apply foldl_ext_all. intros d p. unfold definitions_in_file.
    by rewrite read_file_ext. }
  do 2 f_equal. apply list_bind_ext; [|done]. intros p. by rewrite read_file_ext.
Qed.

Lemma count_references_ext files function_names verbose :
  count_references fs1 files function_names verbose
  = count_references fs2 files function_names verbose.
Proof using Hopen.
  unfold count_references. f_equal.
  - apply foldl_ext_all. intros t p. unfold count_file. by rewrite read_file_ext.
  - do 2 f_equal. apply imap_ext. intros i p _. by rewrite read_file_ext.
Qed.

Lemma process_ext args :
  find_files fs1 (fs_cwd fs1) "*.go" = find_files fs2 (fs_cwd fs2) "*.go" →
  process args fs1 = process args fs2.
Proof using Hopen.
  intros Hfiles. unfold process. rewrite Hfiles.
  destruct (find_files fs2 (fs_cwd fs2) "*.go") as [files|]; [|done].
  destruct files as [|file files]; [done|].
  rewrite find_function_definitions_ext.
  destruct (find_function_definitions fs2 _ _) as [functions err2].
  by rewrite count_references_ext.
Qed.
End same_contents.

Lemma find_files_scan_order fs1 fs2 where_ pattern :
  fs_entries fs1 where_ pattern ≡ₚ fs_entries fs2 where_ pattern →
  find_files fs1 where_ pattern = find_files fs2 where_ pattern.
Proof.
  intros Hperm. rewrite !find_files_eq. f_equal.
  apply (Sorted_unique path_le); [apply Sorted_merge_sort, _..|].
  by rewrite !merge_sort_Permutation, Hperm.
Qed.

(** ** The order of the result lists *)

Lemma StronglySorted_omap {X Y} (R : relation X) (R' : relation Y)
    (f : X → option Y) (l : list X) :
  (∀ x y x' y', R x y → f x = Some x' → f y = Some y' → R' x' y') →
  StronglySorted R l → StronglySorted R' (omap f l).
Proof.
  intros Hf. induction 1 as [|x l Hl IH Hx]; [constructor|].
  cbn [omap list_omap]. destruct (f x) as [x'|] eqn:Hfx; [|done].
  constructor; [done|]. apply Forall_forall.
  intros y' (y & Hy & Hfy)%list_elem_of_omap.
  rewrite Forall_forall in Hx. eauto.
Qed.

Lemma sorted_items_sorted functions : StronglySorted item_le (sorted_items functions).
Proof. apply StronglySorted_merge_sort; apply _. Qed.

Lemma dead_of_name args counters item e :
  dead_of args counters item = Some e → e.1.1 = item.1.
Proof. unfold dead_of. intros. repeat case_match; by simplify_eq. Qed.

Lemma low_of_name args counters item e :
  low_of args counters item = Some e → e.1.1.1 = item.1.
Proof. unfold low_of. intros. repeat case_match; by simplify_eq. Qed.

Lemma names_sorted args counters functions a :
  analyze args counters (sorted_items functions) no_analysis = Some a →
  StronglySorted String.le (dead_names a) ∧ StronglySorted String.le (low_names a).
Proof.
  intros Ha. unfold dead_names, low_names.
  rewrite (dead_candidates_eq _ _ _ _ Ha), (low_usage_eq _ _ _ _ Ha). split.
  - apply (StronglySorted_fmap _ (λ x y : string * nat, String.le x.1 y.1)); [done|].
    apply (StronglySorted_fmap _ (λ x y : dead_entry, String.le x.1.1 y.1.1)); [done|].
    eapply StronglySorted_omap; [|apply sorted_items_sorted].
    intros x y x' y' Hxy Hx%dead_of_name Hy%dead_of_name.
    by rewrite Hx, Hy.
  - apply (StronglySorted_fmap _ (λ x y : string * nat, String.le x.1 y.1)); [done|].
    apply (StronglySorted_fmap _ (λ x y : string * nat * nat, String.le x.1.1 y.1.1)); [done|].
    apply (StronglySorted_fmap _ (λ x y : low_entry, String.le x.1.1.1 y.1.1.1)); [done|].
    eapply StronglySorted_omap; [|apply sorted_items_sorted].
    intros x y x' y' Hxy Hx%low_of_name Hy%low_of_name.
    by rewrite Hx, Hy.
Qed.

(** ** The streams of a run *)

Ltac by_evaluation := apply (bool_decide_unpack _); vm_compute; exact I.

Lemma process_raised args fs : raised (process args fs) = None.
Proof. by destruct (process_outcome args fs). Qed.


Lemma process_stdout_report args fs :
  run_files fs ≠ [] → run_functions fs ≠ ∅ →
  stdout (process args fs) =
    report args (run_files fs) (run_functions fs) (run_tally fs) (run_analysis args fs).
Proof.
  intros Hfiles Hfun.
  by destruct (process_outcome args fs) as [err ?|err ? ?|err ? ?].
Qed.

(** * The specification, sentence by sentence *)

(** ** The renderer *)

(** C1, as the code has it. A run that prints a report without [--summary]
    prints the statistics banner first and the closing note last. With
    [--summary] the report is the statistics banner and nothing else: no
    line for any symbol, and none of the lines of the closing note. *)
Theorem caveat_closes_detailed_report args fs :
  stdout (process args fs) ≠ [] →
  (summary args = false →
     ∃ details,
       stdout (process args fs) =
         banner args (run_files fs) (run_functions fs) (run_analysis args fs)
         ++ details ++ caveat) ∧
  (summary args = true →
     stdout (process args fs) =
       banner args (run_files fs) (run_functions fs) (run_analysis args fs) ∧
     ∀ line, line ∈ caveat_text → line ∉ stdout (process args fs)).
Proof.
  intros Hout.
  destruct (process_outcome args fs) as [err Hfiles|err Hfiles Hfun|err Hfiles Hfun];
    cbn [stdout] in *; [done..|].
  unfold report. split; intros ->.
  - eexists. by rewrite <-app_assoc.
  - rewrite app_nil_r. split; [done|].
    intros line Hline Hin. unfold banner, caveat_text in *.
    set_unfold in Hline. set_unfold in Hin.
    destruct_or!; subst; discriminate.
Qed.

Lemma caveat_closes_detailed_report_witness :
  stdout (process default_args Demo.scenario_a) ≠ [] ∧
  ∃ details,
    stdout (process default_args Demo.scenario_a) =
      banner default_args (run_files Demo.scenario_a) (run_functions Demo.scenario_a)
        (run_analysis default_args Demo.scenario_a)
      ++ details ++ caveat.
Proof.
  assert (stdout (process default_args Demo.scenario_a) ≠ []) as H
    by (vm_compute; discriminate).
  split; [exact H|].
  exact (proj1 (caveat_closes_detailed_report default_args Demo.scenario_a H) eq_refl).
Defined.

(** C1 fails as stated: Scenario A run with [--summary] prints a report,
    and the report has none of the lines of the closing note. *)
Lemma summary_report_has_no_caveat :
  stdout (process Demo.summary_args Demo.scenario_a) ≠ [] ∧
  Forall (λ line, line ∉ stdout (process Demo.summary_args Demo.scenario_a))
    caveat_text ∧
  ¬ (∃ details,
       stdout (process Demo.summary_args Demo.scenario_a) = details ++ caveat).
Proof.
  split; [by_evaluation|]. split; [by_evaluation|].
  intros [details Hd].
  assert ("NOTE: Exported functions (capitalized) are excluded by default."
          ∉ stdout (process Demo.summary_args Demo.scenario_a)) as Hout
    by by_evaluation.
  apply Hout. rewrite Hd. apply elem_of_app. right. unfold caveat, caveat_text.
  apply elem_of_app. right. apply elem_of_app. left. by left.
Qed.

(** ** Completion *)

(** C2, as the code has it. No run raises. A run that finds no source file
    prints an error on stderr and nothing on stdout; so does a run that
    finds source files but no function definition in them; a run that finds
    both prints the report on stdout. *)
Theorem report_needs_files_and_functions args fs :
  find_files fs (fs_cwd fs) "*.go" = Some (run_files fs) ∧
  raised (process args fs) = None ∧
  (run_files fs = [] →
     stdout (process args fs) = [] ∧
     "[ERROR] No Go files found in current directory" ∈ stderr (process args fs)) ∧
  (run_files fs ≠ [] → run_functions fs = ∅ →
     stdout (process args fs) = [] ∧
     "[ERROR] No functions found" ∈ stderr (process args fs)) ∧
  (run_files fs ≠ [] → run_functions fs ≠ ∅ →
     stdout (process args fs) ≠ [] ∧
     stdout (process args fs) =
       report args (run_files fs) (run_functions fs) (run_tally fs)
         (run_analysis args fs)).
Proof.
  split; [apply run_files_eq|].
  destruct (process_outcome args fs) as [err Hfiles|err Hfiles Hfun|err Hfiles Hfun];
    cbn [stdout stderr raised].
  - repeat split; try done. apply elem_of_app. right. by left.
  - repeat split; try done. apply elem_of_app. right. by left.
  - repeat split; done.
Qed.

Lemma report_needs_files_and_functions_witness :
  run_files Demo.scenario_a ≠ [] ∧ run_functions Demo.scenario_a ≠ ∅ ∧
  stdout (process default_args Demo.scenario_a) ≠ [].
Proof.
  assert (run_files Demo.scenario_a ≠ []) as H1 by (vm_compute; discriminate).
  assert (run_functions Demo.scenario_a ≠ ∅) as H2 by by_evaluation.
  split; [exact H1|]. split; [exact H2|].
  exact (proj1 (proj2 (proj2 (proj2 (proj2
    (report_needs_files_and_functions default_args Demo.scenario_a)))) H1 H2)).
Defined.

(** C2 fails as stated: a tree with one source file that declares no
    function gives an error on stderr and no report. *)
Lemma files_without_functions_give_no_report :
  find_files Demo.no_functions (fs_cwd Demo.no_functions) "*.go" = Some [["a.go"]] ∧
  stdout (process default_args Demo.no_functions) = [] ∧
  stderr (process default_args Demo.no_functions) = ["[ERROR] No functions found"].
Proof. by vm_compute. Qed.

(** ** The file reader *)

(** C3, as the code has it. A file that cannot be opened gives a warning and
    no line; a file whose decoding fails gives a warning and the lines read
    before the failure. The warning reaches stderr in both passes. A file
    that gives no line adds nothing to the symbol table or to the counters:
    the other files are scanned as if it were not there. No run raises. *)
Theorem read_failure_is_local fs filename :
  (∀ e, fs_open fs filename = OpenError e →
     read_file fs filename = ([], [warning filename e])) ∧
  (∀ read e, fs_open fs filename = DecodeError read e →
     read_file fs filename = (numbered read, [warning filename e])) ∧
  (∀ files verbose e,
     filename ∈ files →
     (read_file fs filename).2 = [warning filename e] →
     warning filename e ∈ (find_function_definitions fs files verbose).2 ∧
     ∀ func_set,
       warning filename e ∈ (count_references fs files func_set verbose).2) ∧
  (∀ before rest verbose,
     (read_file fs filename).1 = [] →
     (find_function_definitions fs (before ++ filename :: rest) verbose).1
       = (find_function_definitions fs (before ++ rest) verbose).1 ∧
     ∀ func_set,
       (count_references fs (before ++ filename :: rest) func_set verbose).1
       = (count_references fs (before ++ rest) func_set verbose).1) ∧
  (∀ args, raised (process args fs) = None).
Proof.
  split; [|split; [|split; [|split]]].
  - intros e He. unfold read_file. by rewrite He.
  - intros read e He. unfold read_file. by rewrite He.
  - intros files verbose e Hin Hw. split; [|intros func_set].
    + unfold find_function_definitions. cbn [snd].
      apply elem_of_app. left. apply list_elem_of_bind. exists filename.
      rewrite Hw. split; [by left | done].
    + unfold count_references. cbn [snd].
      apply elem_of_app. left.
      apply list_elem_of_lookup in Hin as [i Hi].
      apply list_elem_of_join.
      exists (scan_progress (length files) verbose i filename
              ++ (read_file fs filename).2).
      split.
      * apply elem_of_app. right. rewrite Hw. by left.
      * apply list_elem_of_lookup. exists i. by rewrite list_lookup_imap, Hi.
  - intros before rest verbose Hempty. split; [|intros func_set].
    + unfold find_function_definitions. cbn [fst].
      rewrite !foldl_app. cbn [foldl]. unfold definitions_in_file at 2.
      by rewrite Hempty.
    + unfold count_references. cbn [fst].
      rewrite !foldl_app. cbn [foldl]. unfold count_file at 2.
      by rewrite Hempty.
  - intros args. apply process_raised.
Qed.

Lemma read_failure_is_local_witness :
  fs_open Demo.unreadable ["locked.go"]
    = OpenError "[Errno 13] Permission denied: 'locked.go'" ∧
  read_file Demo.unreadable ["locked.go"]
    = ([], [warning ["locked.go"] "[Errno 13] Permission denied: 'locked.go'"]) ∧
  (find_function_definitions Demo.unreadable [["a.go"]; ["locked.go"]] false).1
    = (find_function_definitions Demo.unreadable [["a.go"]] false).1.
Proof.
  assert (fs_open Demo.unreadable ["locked.go"]
    = OpenError "[Errno 13] Permission denied: 'locked.go'") as H
    by (vm_compute; reflexivity).
  pose proof (read_failure_is_local Demo.unreadable ["locked.go"])
    as (Hopen & _ & _ & Hskip & _).
  split; [exact H|]. split; [exact (Hopen _ H)|].
  refine (proj1 (Hskip [["a.go"]] [] false _)).
  vm_compute. reflexivity.
Defined.

(** C3 fails as stated: a file whose decoding fails after its first line was
    read yields that line, and the declaration on it enters the symbol table
    and the counters. *)
Lemma decode_failure_keeps_lines_read :
  fs_open Demo.broken ["a.go"]
    = DecodeError ["func helper() {" +:+ nl] "'utf-8' codec can't decode byte 0xff" ∧
  (read_file Demo.broken ["a.go"]).1 = [(1, "func helper() {" +:+ nl)] ∧
  run_functions Demo.broken !! "helper" = Some [("a.go", 1)] ∧
  counters (run_tally Demo.broken) !! "helper" = Some 1.
Proof. by vm_compute. Qed.

(** ** The configuration *)




(** ** The classifier *)

(** C5. For a symbol of the table that no exclusion rule removes, with
    [ref_count] its occurrence count and [def_count] the number of its
    definition sites: if [ref_count ≤ def_count] it is a dead candidate;
    else if [ref_count ≤ def_count + max_refs] it is of low usage, shown with
    [ref_count - def_count] extra references; else it is in neither list.
    With [max_refs = 1] and one definition site: 1 occurrence is dead,
    2 occurrences are low usage with 1 extra reference, 3 are omitted. *)
Theorem classifier_thresholds args counters functions a name definitions :
  analyze args counters (sorted_items functions) no_analysis = Some a →
  functions !! name = Some definitions →
  excluded args name = false →
  let ref_count := default 0 (counters !! name) in
  let def_count := length definitions in
  (ref_count ≤ def_count →
     (name, ref_count, definitions) ∈ dead_candidates a ∧ name ∉ low_names a) ∧
  (def_count < ref_count →
   (Z.of_nat ref_count ≤ Z.of_nat def_count + max_refs args)%Z →
     (name, ref_count, def_count, definitions) ∈ low_usage a ∧
     actual_refs (name, ref_count, def_count, definitions) = ref_count - def_count ∧
     name ∉ dead_names a) ∧
  (def_count < ref_count →
   (Z.of_nat def_count + max_refs args < Z.of_nat ref_count)%Z →
     ¬ listed a name) ∧
  (max_refs args = 1%Z → def_count = 1 →
     (ref_count = 1 → name ∈ dead_names a ∧ name ∉ low_names a) ∧
     (ref_count = 2 →
        (name, 2, 1, definitions) ∈ low_usage a ∧
        actual_refs (name, 2, 1, definitions) = 1 ∧ name ∉ dead_names a) ∧
     (ref_count = 3 → ¬ listed a name)).
Proof.
  intros Ha Hf Hex ref_count def_count.
  assert (Hdead : ref_count ≤ def_count →
    (name, ref_count, definitions) ∈ dead_candidates a ∧ name ∉ low_names a).
  { intros Hle. split.
    - apply (dead_candidates_elem_of _ _ _ _ Ha). exists name, definitions.
      split; [done|]. unfold dead_of. cbn [fst snd].
      by rewrite Hex, bool_decide_eq_true_2.
    - intros (definitions' & Hf' & e & He)%(low_names_elem_of _ _ _ _ Ha).
      simplify_eq. unfold low_of in He. cbn [fst snd] in He.
      by rewrite Hex, bool_decide_eq_true_2 in He. }
  assert (Hlow : def_count < ref_count →
    (Z.of_nat ref_count ≤ Z.of_nat def_count + max_refs args)%Z →
    (name, ref_count, def_count, definitions) ∈ low_usage a ∧
    actual_refs (name, ref_count, def_count, definitions) = ref_count - def_count ∧
    name ∉ dead_names a).
  { intros Hlt Hle. split; [|split; [done|]].
    - apply (low_usage_elem_of _ _ _ _ Ha). exists name, definitions.
      split; [done|]. unfold low_of. cbn [fst snd].
      rewrite Hex, bool_decide_eq_false_2, bool_decide_eq_true_2;
        [done | fold ref_count def_count; lia | fold ref_count def_count; lia].
    - intros (definitions' & Hf' & e & He)%(dead_names_elem_of _ _ _ _ Ha).
      simplify_eq. unfold dead_of in He. cbn [fst snd] in He.
      rewrite Hex, bool_decide_eq_false_2 in He; [done|].
      fold ref_count def_count. lia. }
  assert (Hnormal : def_count < ref_count →
    (Z.of_nat def_count + max_refs args < Z.of_nat ref_count)%Z → ¬ listed a name).
  { intros Hlt Hgt (definitions' & Hf' & _ & Hle)%(listed_iff _ _ _ _ Ha).
    simplify_eq. fold ref_count def_count in Hle. lia. }
  split; [done|]. split; [done|]. split; [done|].
  intros Hmax Hone. split; [|split].
  - intros Href. destruct Hdead as [Hd Hl]; [lia|]. split; [|done].
    unfold dead_names. apply list_elem_of_fmap. exists (name, ref_count).
    split; [done|]. apply list_elem_of_fmap. by exists (name, ref_count, definitions).
  - intros Href. destruct Hlow as (Hin & _ & Hnd); [lia | lia |].
    rewrite Href, Hone in Hin. done.
  - intros Href. apply Hnormal; lia.
Qed.

Lemma classifier_thresholds_witness :
  analyze default_args (counters (run_tally Demo.scenario_b))
    (sorted_items (run_functions Demo.scenario_b)) no_analysis
    = Some (run_analysis default_args Demo.scenario_b) ∧
  run_functions Demo.scenario_b !! "helper" = Some [("a.go", 2)] ∧
  excluded default_args "helper" = false ∧
  ("helper", 2, 1, [("a.go", 2)]) ∈ low_usage (run_analysis default_args Demo.scenario_b).
Proof.
  assert (analyze default_args (counters (run_tally Demo.scenario_b))
    (sorted_items (run_functions Demo.scenario_b)) no_analysis
    = Some (run_analysis default_args Demo.scenario_b)) as H1 by (vm_compute; reflexivity).
  assert (run_functions Demo.scenario_b !! "helper" = Some [("a.go", 2)]) as H2
    by (vm_compute; reflexivity).
  assert (excluded default_args "helper" = false) as H3 by (vm_compute; reflexivity).
  split; [exact H1|]. split; [exact H2|]. split; [exact H3|].
  pose proof (classifier_thresholds _ _ _ _ _ _ H1 H2 H3) as (_ & _ & _ & H).
  destruct H as (_ & H & _); [reflexivity | reflexivity |].
  apply H. vm_compute. reflexivity.
Defined.

(** C7. Whatever the symbol table and the counters: a symbol whose name
    starts with [Test] is in neither result list unless [include_tests] is
    set; a symbol whose name starts with an uppercase letter is in neither
    list unless [include_exported] is set; and [init], [main], [String] and
    [Error] are in neither list, whatever the flags. *)
Theorem exclusion_rules args counters functions a name :
  analyze args counters (sorted_items functions) no_analysis = Some a →
  (test_prefixed name = true → include_tests args = false → ¬ listed a name) ∧
  (exported name = true → include_exported args = false → ¬ listed a name) ∧
  (name ∈ ["init"; "main"; "String"; "Error"] → ¬ listed a name).
Proof.
  intros Ha.
  assert (Hex : excluded args name = true → ¬ listed a name).
  { intros Hex (definitions & _ & Hex' & _)%(listed_iff _ _ _ _ Ha). congruence. }
  unfold excluded in Hex. repeat split.
  - intros Ht Hi. apply Hex. by rewrite Ht, Hi.
  - intros He Hi. apply Hex. rewrite He, Hi. cbn. by rewrite orb_true_r.
  - intros Hin. apply Hex. unfold conventional_names.
    rewrite (bool_decide_eq_true_2 _ Hin). by rewrite orb_true_r.
Qed.

Lemma exclusion_rules_witness :
  analyze default_args (counters (run_tally Demo.scenario_b))
    (sorted_items (run_functions Demo.scenario_b)) no_analysis
    = Some (run_analysis default_args Demo.scenario_b) ∧
  run_functions Demo.scenario_b !! "main" = Some [("b.go", 2)] ∧
  ¬ listed (run_analysis default_args Demo.scenario_b) "main".
Proof.
  assert (analyze default_args (counters (run_tally Demo.scenario_b))
    (sorted_items (run_functions Demo.scenario_b)) no_analysis
    = Some (run_analysis default_args Demo.scenario_b)) as H1 by (vm_compute; reflexivity).
  assert ("main" ∈ ["init"; "main"; "String"; "Error"]) as H2 by by_evaluation.
  split; [exact H1|]. split; [vm_compute; reflexivity|].
  exact (proj2 (proj2 (exclusion_rules _ _ _ _ "main" H1)) H2).
Defined.

(** C10. A name that starts with [Test] starts with an uppercase letter, so
    it is also an exported name: with [include_tests] set and
    [include_exported] not set such a symbol is in neither result list. *)
Theorem test_prefix_is_exported args counters functions a name :
  analyze args counters (sorted_items functions) no_analysis = Some a →
  test_prefixed name = true →
  include_tests args = true → include_exported args = false →
  exported name = true ∧ ¬ listed a name.
Proof.
  intros Ha Htest _ Hexp.
  pose proof (test_prefixed_exported name Htest) as Hup. split; [done|].
  intros (definitions & _ & Hex & _)%(listed_iff _ _ _ _ Ha).
  unfold excluded in Hex. rewrite Hexp, Hup in Hex. cbn in Hex.
  by rewrite orb_true_r in Hex.
Qed.

Lemma test_prefix_is_exported_witness :
  analyze Demo.tests_args (counters (run_tally Demo.with_test))
    (sorted_items (run_functions Demo.with_test)) no_analysis
    = Some (run_analysis Demo.tests_args Demo.with_test) ∧
  test_prefixed "TestHelper" = true ∧
  include_tests Demo.tests_args = true ∧
  include_exported Demo.tests_args = false ∧
  run_functions Demo.with_test !! "TestHelper" = Some [("a_test.go", 1)] ∧
  ¬ listed (run_analysis Demo.tests_args Demo.with_test) "TestHelper".
Proof.
  assert (analyze Demo.tests_args (counters (run_tally Demo.with_test))
    (sorted_items (run_functions Demo.with_test)) no_analysis
    = Some (run_analysis Demo.tests_args Demo.with_test)) as H1 by (vm_compute; reflexivity).
  split; [exact H1|]. split; [reflexivity|]. split; [reflexivity|].
  split; [reflexivity|]. split; [vm_compute; reflexivity|].
  exact (proj2 (test_prefix_is_exported _ _ _ _ "TestHelper" H1 eq_refl eq_refl eq_refl)).
Defined.

(** ** The two passes *)

(** C6. A line that the declaration pattern matches has the declared name
    among its word tokens. Hence, the two passes reading the same files, a
    symbol of the table has at least one definition site and an occurrence
    count that is at least the number of its definition sites. *)
Theorem occurrences_cover_definitions fs files verbose name definitions :
  (find_function_definitions fs files verbose).1 !! name = Some definitions →
  (∀ line, func_name_of line = Some name → name ∈ words_of line) ∧
  1 ≤ length definitions ∧
  length definitions
    ≤ default 0
        (counters
           (count_references fs files
              (dom (find_function_definitions fs files verbose).1) verbose).1
         !! name).
Proof.
  intros Hf. split; [intros line; apply func_name_in_words|]. split.
  - apply find_function_definitions_well_formed in Hf as [_ Hne].
    destruct definitions; [done | simpl; lia].
  - pose proof (find_function_definitions_sites fs files verbose name) as Hs.
    unfold sites in Hs. rewrite Hf in Hs.
    change (length definitions = declarations fs name files) in Hs. rewrite Hs.
    fold (tallied (count_references fs files
      (dom (find_function_definitions fs files verbose).1) verbose).1 name).
    rewrite count_references_tallied by (apply elem_of_dom; eauto).
    apply declarations_mentions.
Qed.

Lemma occurrences_cover_definitions_witness :
  (find_function_definitions Demo.scenario_b [["a.go"]; ["b.go"]] false).1 !! "helper"
    = Some [("a.go", 2)] ∧
  1 ≤ default 0
        (counters
           (count_references Demo.scenario_b [["a.go"]; ["b.go"]]
              (dom (find_function_definitions Demo.scenario_b
                      [["a.go"]; ["b.go"]] false).1) false).1
         !! "helper").
Proof.
  assert ((find_function_definitions Demo.scenario_b [["a.go"]; ["b.go"]] false).1
            !! "helper" = Some [("a.go", 2)]) as H by (vm_compute; reflexivity).
  split; [exact H|].
  exact (proj2 (proj2 (occurrences_cover_definitions _ _ _ _ _ H))).
Defined.

(** ** The tree walker and the order of the report *)


(** C8. Two runs with the same flags over the same tree — the same working
    directory, the same contents of every file, the same matching entries
    met in whatever order by the directory scan — leave the same output on
    both streams; and the two result lists are in the order of the names. *)
Theorem report_independent_of_scan_order args fs1 fs2 :
  fs_cwd fs1 = fs_cwd fs2 →
  (∀ p, fs_open fs1 p = fs_open fs2 p) →
  fs_entries fs1 (fs_cwd fs1) "*.go" ≡ₚ fs_entries fs2 (fs_cwd fs2) "*.go" →
  process args fs1 = process args fs2 ∧
  StronglySorted String.le (dead_names (run_analysis args fs1)) ∧
  StronglySorted String.le (low_names (run_analysis args fs1)).
Proof.
  intros Hcwd Hopen Hperm. split.
  - apply process_ext; [done|]. rewrite <-Hcwd in *. by apply find_files_scan_order.
  - eapply names_sorted, run_analysis_eq.
Qed.

Lemma report_independent_of_scan_order_witness :
  fs_cwd Demo.scenario_b = fs_cwd Demo.scenario_b_rescanned ∧
  (∀ p, fs_open Demo.scenario_b p = fs_open Demo.scenario_b_rescanned p) ∧
  fs_entries Demo.scenario_b (fs_cwd Demo.scenario_b) "*.go"
    ≡ₚ fs_entries Demo.scenario_b_rescanned (fs_cwd Demo.scenario_b_rescanned) "*.go" ∧
  process default_args Demo.scenario_b = process default_args Demo.scenario_b_rescanned.
Proof.
  assert (fs_cwd Demo.scenario_b = fs_cwd Demo.scenario_b_rescanned) as H1
    by reflexivity.
  assert (∀ p, fs_open Demo.scenario_b p = fs_open Demo.scenario_b_rescanned p) as H2
    by (intros p; reflexivity).
  assert (fs_entries Demo.scenario_b (fs_cwd Demo.scenario_b) "*.go"
    ≡ₚ fs_entries Demo.scenario_b_rescanned (fs_cwd Demo.scenario_b_rescanned) "*.go")
    as H3 by (vm_compute; apply perm_swap).
  split; [exact H1|]. split; [exact H2|]. split; [exact H3|].
  exact (proj1 (report_independent_of_scan_order default_args _ _ H1 H2 H3)).
Defined.

(** ** The scenarios of the specification *)

(** Scenario A: [helper] is declared and never used. *)
Example scenario_a_dead :
  dead_candidates (run_analysis default_args Demo.scenario_a)
    = [("helper", 1, [("a.go", 2)])] ∧
  low_usage (run_analysis default_args Demo.scenario_a) = [].
Proof. by vm_compute. Qed.

(** Scenario B: a second file calls [helper]; [main] is never listed. *)
Example scenario_b_low_usage :
  dead_candidates (run_analysis default_args Demo.scenario_b) = [] ∧
  low_usage (run_analysis default_args Demo.scenario_b)
    = [("helper", 2, 1, [("a.go", 2)])] ∧
  "  a.go:2      helper (1 refs)" ∈ stdout (process default_args Demo.scenario_b).
Proof. split; [by vm_compute|]. split; [by vm_compute | by_evaluation]. Qed.

(** The parts of the root count too: below a directory named [vendor]
    every file is left out. *)
Example nothing_found_below_vendor :
  find_files Demo.below_vendor (fs_cwd Demo.below_vendor) "*.go" = Some [] ∧
  stdout (process default_args Demo.below_vendor) = [] ∧
  stderr (process default_args Demo.below_vendor)
    = ["[ERROR] No Go files found in current directory"].
Proof. by vm_compute. Qed.

(** * Further properties of the script *)

(** ** Lemmas *)

Lemma foldl_collect {S X Y} (μ : S → list Y) (w : X → list Y) (f : S → X → S)
    (l : list X) (s : S) :
  (∀ s x, μ (f s x) = μ s ++ w x) → μ (foldl f s l) = μ s ++ (l ≫= w).
Proof.
  intros Hf. revert s. induction l as [|x l IH]; intros s; cbn [foldl].
  - by rewrite app_nil_r.
  - rewrite IH, Hf, <-app_assoc. done.
Qed.

Lemma definitions_in_line_lookup filename functions nline name :
  default [] (definitions_in_line filename functions nline !! name) =
    default [] (functions !! name) ++ option_list (declared_at name filename nline).
Proof.
  unfold definitions_in_line, declared_at.
  destruct (func_name_of nline.2) as [func_name|] eqn:Hf.
  - rewrite dict_append_lookup.
    destruct (decide (func_name = name)) as [->|Hne].
    + by rewrite !bool_decide_eq_true_2.
    + by rewrite !bool_decide_eq_false_2 by congruence.
  - rewrite bool_decide_eq_false_2 by done. by rewrite app_nil_r.
Qed.

Lemma bind_option_list {X Y} (f : X → option Y) (l : list X) :
  l ≫= (λ x, option_list (f x)) = omap f l.
Proof.
  induction l as [|x l IH]; [done|]. csimpl. rewrite IH.
  by destruct (f x).
Qed.

Lemma find_function_definitions_lookup fs files verbose name :
  default [] ((find_function_definitions fs files verbose).1 !! name)
    = sites_of fs name files.
Proof.
  unfold find_function_definitions, sites_of. cbn [fst].
  rewrite (foldl_collect (λ d, default [] (d !! name))
    (λ filename, omap (declared_at name filename) (read_file fs filename).1)).
  - by rewrite lookup_empty.
  - intros d filename. unfold definitions_in_file.
    rewrite (foldl_collect (λ d, default [] (d !! name))
      (λ nline, option_list (declared_at name filename nline))).
    + by rewrite bind_option_list.
    + intros. apply definitions_in_line_lookup.
Qed.


Lemma count_word_recorded func_set filename nline t word name :
  name ∈ func_set →
  recorded (count_word func_set filename nline t word) name =
    recorded t name ++
    (if bool_decide (word = name)
     then [(path_str filename +:+ ":" +:+ pretty nline.1, Py.take 80 (Py.strip nline.2))]
     else []).
Proof.
  intros Hin. unfold recorded, count_word.
  destruct (decide (word = name)) as [->|Hne].
  - rewrite (bool_decide_eq_true_2 (name ∈ func_set)) by done. cbn [references].
    apply dict_append_lookup.
  - case_bool_decide; cbn [references].
    + apply dict_append_lookup.
    + rewrite bool_decide_eq_false_2 by done. by rewrite app_nil_r.
Qed.

Lemma count_line_recorded func_set filename t nline name :
  name ∈ func_set →
  recorded (count_line func_set filename t nline) name =
    recorded t name ++ mentioned_at name filename nline.
Proof.
  intros Hin. unfold count_line, mentioned_at.
  generalize (words_of nline.2). intros words. revert t.
  induction words as [|word words IH]; intros t; [by rewrite app_nil_r|].
  cbn [foldl]. rewrite IH, count_word_recorded by done.
  rewrite filter_cons, <-app_assoc. f_equal.
  case_bool_decide; case_decide; done.
Qed.

Lemma count_references_recorded fs files func_set verbose name :
  name ∈ func_set →
  recorded (count_references fs files func_set verbose).1 name
    = references_of fs name files.
Proof.
  intros Hin. unfold count_references, references_of. cbn [fst].
  rewrite (foldl_collect (λ t, recorded t name)
    (λ filename, (read_file fs filename).1 ≫= mentioned_at name filename)).
  - unfold recorded. cbn. by rewrite lookup_empty.
  - intros t filename. unfold count_file.
    apply (foldl_collect (λ t, recorded t name)). intros.
    by apply count_line_recorded.
Qed.

Lemma count_references_in_step fs files func_set verbose :
  in_step func_set (count_references fs files func_set verbose).1.
Proof.
  unfold count_references. cbn [fst].
  apply foldl_invariant; [|intros name; left; cbn [counters references];
                             by rewrite !lookup_empty].
  intros t filename Ht. unfold count_file.
  apply foldl_invariant; [|done]. clear t Ht. intros t nline Ht.
  unfold count_line. apply foldl_invariant; [|done]. clear t Ht. intros t word Ht.
  unfold count_word. case_bool_decide as Hw; [|done].
  intros name. cbn [counters references]. unfold dict_append.
  destruct (decide (word = name)) as [->|Hne].
  - right. split; [done|]. rewrite !lookup_insert_eq.
    do 2 eexists. split; [done|]. split; [done|].
    rewrite length_app. cbn.
    destruct (Ht name) as [(-> & ->)|(_ & n & refs & -> & -> & <- & _)];
      cbn; lia.
  - rewrite !lookup_insert_ne by done. apply Ht.
Qed.














Lemma NoDup_omap_names {X Y} (key : X → string) (key' : Y → string)
    (f : X → option Y) (l : list X) :
  (∀ x y, f x = Some y → key' y = key x) →
  NoDup (key <$> l) → NoDup (key' <$> omap f l).
Proof.
  intros Hf. induction l as [|x l IH]; [constructor|].
  rewrite fmap_cons, NoDup_cons. intros [Hx Hl]. cbn [omap list_omap].
  destruct (f x) as [y|] eqn:Hfx; [|by apply IH].
  rewrite fmap_cons, NoDup_cons. split; [|by apply IH].
  intros (y' & Hy' & (x' & Hx' & Hfx')%list_elem_of_omap)%list_elem_of_fmap.
  apply Hx. apply list_elem_of_fmap. exists x'. split; [|done].
  by rewrite <-(Hf _ _ Hfx), <-(Hf _ _ Hfx').
Qed.

Lemma sorted_items_keys functions : NoDup ((sorted_items functions).*1).
Proof.
  unfold sorted_items. rewrite merge_sort_Permutation. apply NoDup_fst_map_to_list.
Qed.

Lemma fmap_fst_fst {X Y Z} (l : list (X * Y * Z)) : l.*1.*1 = (λ e, e.1.1) <$> l.
Proof. by rewrite <-list_fmap_compose. Qed.

Lemma fmap_fst_fst_fst {X Y Z W} (l : list (X * Y * Z * W)) :
  l.*1.*1.*1 = (λ e, e.1.1.1) <$> l.
Proof. by rewrite <-!list_fmap_compose. Qed.

Lemma omap_sublist {X Y} (f g : X → option Y) (l : list X) :
  (∀ x y, f x = Some y → g x = Some y) → omap f l `sublist_of` omap g l.
Proof.
  intros Hfg. induction l as [|x l IH]; [constructor|]. cbn [omap list_omap].
  destruct (f x) as [y|] eqn:Hf.
  - rewrite (Hfg _ _ Hf). by constructor.
  - destruct (g x); [by constructor | done].
Qed.

Lemma excluded_permissive args1 args2 name :
  at_least_as_permissive args1 args2 →
  excluded args1 name = false → excluded args2 name = false.
Proof.
  intros (Ht & He & _). unfold excluded.
  destruct (include_tests args1), (include_tests args2),
    (include_exported args1), (include_exported args2),
    (test_prefixed name), (exported name),
    (bool_decide (name ∈ conventional_names)); cbn; try done;
    (by discriminate (Ht eq_refl)) || (by discriminate (He eq_refl)).
Qed.

Lemma quiet_progress fs files :
  mjoin (imap (λ i filename,
           scan_progress (length files) false i filename ++ (read_file fs filename).2)
         files)
  = files ≫= λ filename, (read_file fs filename).2.
Proof.
  generalize (length files). intros n.
  rewrite (imap_ext _ (const (λ filename, (read_file fs filename).2))) by done.
  rewrite imap_const.
  induction files as [|f files IH]; [done|]. csimpl. by rewrite IH.
Qed.

(** ** The properties *)




(** X4. The definition sites of a name are, in the order of the scan (file
    after file, line after line), the [(file, number)] of every line read
    that declares the name: declarations of one name in several files or
    types are merged under the name, a name that no line declares is not a
    key of the table, and every site points at a declaring line. *)
Theorem definition_sites_are_the_declaring_lines fs files verbose name :
  let functions := (find_function_definitions fs files verbose).1 in
  default [] (functions !! name) = sites_of fs name files ∧
  (functions !! name = None ↔ sites_of fs name files = []) ∧
  (∀ file number,
     (file, number) ∈ default [] (functions !! name) ↔
     ∃ filename line,
       filename ∈ files ∧ file = path_str filename ∧
       (number, line) ∈ (read_file fs filename).1 ∧
       func_name_of line = Some name).
Proof.
  intros functions. pose proof (find_function_definitions_lookup fs files verbose name) as Heq.
  fold functions in Heq. split; [done|]. split.
  - split.
    + intros Hn. by rewrite <-Heq, Hn.
    + intros Hs. destruct (functions !! name) as [definitions|] eqn:Hf; [|done].
      apply find_function_definitions_well_formed in Hf as [_ Hne].
      rewrite Hs in Heq. done.
  - intros file number. rewrite Heq. unfold sites_of.
    rewrite list_elem_of_bind. split.
    + intros (filename & ([n line] & Hin & Hd)%list_elem_of_omap & Hfile).
      unfold declared_at in Hd. cbn [fst snd] in Hd. case_bool_decide; simplify_eq.
      eauto 10.
    + intros (filename & line & Hfile & -> & Hin & Hd).
      exists filename. split; [|done]. apply list_elem_of_omap.
      exists (number, line). split; [done|]. unfold declared_at. cbn [fst snd].
      by rewrite bool_decide_eq_true_2.
Qed.



(** X6. For a name of [func_set] the references are, in the order of the
    scan, one record for every token equal to the name on every line read,
    and the counter is their number. *)
Theorem references_are_the_token_occurrences fs files func_set verbose name :
  let t := (count_references fs files func_set verbose).1 in
  name ∈ func_set →
  default [] (references t !! name) = references_of fs name files ∧
  default 0 (counters t !! name) = length (references_of fs name files) ∧
  default 0 (counters t !! name) = mentions fs name files.
Proof.
  intros t Hin.
  pose proof (count_references_recorded fs files func_set verbose name Hin) as Hr.
  pose proof (count_references_tallied fs files func_set verbose name Hin) as Hc.
  unfold recorded, tallied in *. fold t in Hr, Hc. split; [done|]. split; [|done].
  rewrite <-Hr.
  destruct (count_references_in_step fs files func_set verbose name)
    as [(H1 & H2)|(_ & n & refs & H1 & H2 & <- & _)]; fold t in H1, H2;
    by rewrite H1, H2.
Qed.

Lemma references_are_the_token_occurrences_witness :
  "helper" ∈ ({["helper"]} : gset string) ∧
  default 0
    (counters (count_references Demo.scenario_b [["a.go"]; ["b.go"]]
                 {["helper"]} false).1 !! "helper")
  = mentions Demo.scenario_b "helper" [["a.go"]; ["b.go"]].
Proof.
  assert ("helper" ∈ ({["helper"]} : gset string)) as H by by_evaluation.
  split; [exact H|].
  exact (proj2 (proj2 (references_are_the_token_occurrences
    Demo.scenario_b [["a.go"]; ["b.go"]] {["helper"]} false "helper" H))).
Defined.

(** X7. [counters] and [references] stay in step: a name has a counter
    exactly when it has references, the counter is the number of its
    references and is at least 1, and only names of [func_set] are counted;
    a name outside [func_set] is a key of neither dict. *)
Theorem counters_and_references_agree fs files func_set verbose name :
  let t := (count_references fs files func_set verbose).1 in
  length (default [] (references t !! name)) = default 0 (counters t !! name) ∧
  (is_Some (counters t !! name) ↔ is_Some (references t !! name)) ∧
  (is_Some (counters t !! name) → name ∈ func_set ∧ 1 ≤ default 0 (counters t !! name)) ∧
  (name ∉ func_set → counters t !! name = None ∧ references t !! name = None).
Proof.
  intros t.
  destruct (count_references_in_step fs files func_set verbose name)
    as [(H1 & H2)|(Hin & n & refs & H1 & H2 & <- & Hn)]; fold t in H1, H2;
    rewrite H1, H2; cbn.
  - repeat split; try done; by intros [? ?].
  - repeat split; try done; eauto.
Qed.



(** X9. The two result lists hold exactly the entries the rules give: an
    entry is in [dead_candidates] iff its symbol is in the table, is not
    excluded, and its occurrence count, which the entry records, is at most
    the number of its definition sites; an entry is in [low_usage] iff its
    symbol is in the table, is not excluded, and its occurrence count exceeds
    the number of its sites by at most [max_refs]; the entry records the
    count, the number of sites and the sites. *)
Theorem result_lists_are_exact args counters functions a :
  analyze args counters (sorted_items functions) no_analysis = Some a →
  (∀ name ref_count definitions,
     (name, ref_count, definitions) ∈ dead_candidates a ↔
     functions !! name = Some definitions ∧ excluded args name = false ∧
     ref_count = default 0 (counters !! name) ∧ ref_count ≤ length definitions) ∧
  (∀ name ref_count def_count definitions,
     (name, ref_count, def_count, definitions) ∈ low_usage a ↔
     functions !! name = Some definitions ∧ excluded args name = false ∧
     ref_count = default 0 (counters !! name) ∧ def_count = length definitions ∧
     def_count < ref_count ∧
     (Z.of_nat ref_count ≤ max_refs args + Z.of_nat def_count)%Z).
Proof.
  intros Ha. split.
  - intros name ref_count definitions.
    rewrite (dead_candidates_elem_of _ _ _ _ Ha). unfold dead_of. split.
    + intros (n & ds & Hf & He). cbn [fst snd] in He.
      destruct (excluded args n) eqn:Hex; [done|].
      case_bool_decide; simplify_eq. done.
    + intros (Hf & Hex & -> & Hle). exists name, definitions. split; [done|].
      cbn [fst snd]. by rewrite Hex, bool_decide_eq_true_2.
  - intros name ref_count def_count definitions.
    rewrite (low_usage_elem_of _ _ _ _ Ha). unfold low_of. split.
    + intros (n & ds & Hf & He). cbn [fst snd] in He.
      destruct (excluded args n) eqn:Hex; [done|].
      repeat case_bool_decide; simplify_eq. repeat split; (done || lia).
    + intros (Hf & Hex & -> & -> & Hlt & Hle). exists name, definitions.
      split; [done|]. cbn [fst snd].
      rewrite Hex, bool_decide_eq_false_2, bool_decide_eq_true_2; (done || lia).
Qed.

Lemma result_lists_are_exact_witness :
  analyze default_args (counters (run_tally Demo.scenario_a))
    (sorted_items (run_functions Demo.scenario_a)) no_analysis
    = Some (run_analysis default_args Demo.scenario_a) ∧
  ("helper", 1, [("a.go", 2)]) ∈ dead_candidates (run_analysis default_args Demo.scenario_a).
Proof.
  assert (analyze default_args (counters (run_tally Demo.scenario_a))
    (sorted_items (run_functions Demo.scenario_a)) no_analysis
    = Some (run_analysis default_args Demo.scenario_a)) as H1 by (vm_compute; reflexivity).
  split; [exact H1|].
  apply (proj1 (result_lists_are_exact _ _ _ _ H1)).
  vm_compute. repeat split; lia.
Defined.

(** X10. No symbol has two entries, in one list or across the two; every
    listed symbol is a key of the table; so the two counts of the statistics
    banner add up to at most the number of functions found. *)
Theorem result_lists_are_disjoint args counters functions a :
  analyze args counters (sorted_items functions) no_analysis = Some a →
  NoDup (dead_names a ++ low_names a) ∧
  (∀ name, listed a name → is_Some (functions !! name)) ∧
  length (dead_candidates a) + length (low_usage a) ≤ size functions.
Proof.
  intros Ha.
  assert (Hnd : NoDup (dead_names a ++ low_names a)).
  { apply NoDup_app. split; [|split].
    - unfold dead_names. rewrite fmap_fst_fst, (dead_candidates_eq _ _ _ _ Ha).
      apply (NoDup_omap_names fst); [|apply sorted_items_keys].
      intros x y. apply dead_of_name.
    - intros name (ds & Hf & e & He)%(dead_names_elem_of _ _ _ _ Ha)
        (ds' & Hf' & e' & He')%(low_names_elem_of _ _ _ _ Ha).
      simplify_eq. unfold dead_of, low_of in *. cbn [fst snd] in *.
      destruct (excluded args name); [done|]. by case_bool_decide.
    - unfold low_names. rewrite fmap_fst_fst_fst, (low_usage_eq _ _ _ _ Ha).
      apply (NoDup_omap_names fst); [|apply sorted_items_keys].
      intros x y. apply low_of_name. }
  assert (Hin : ∀ name, listed a name → is_Some (functions !! name)).
  { intros name (ds & Hf & _)%(listed_iff _ _ _ _ Ha). eauto. }
  split; [done|]. split; [done|].
  transitivity (length (dead_names a ++ low_names a)).
  { unfold dead_names, low_names. rewrite length_app, !length_fmap. done. }
  rewrite <-length_map_to_list, <-(length_fmap fst (map_to_list functions)).
  apply submseteq_length, NoDup_submseteq; [done|].
  intros name Hname. destruct (Hin name) as [ds Hds].
  { by apply elem_of_app in Hname. }
  apply list_elem_of_fmap. exists (name, ds). split; [done|].
  by apply elem_of_map_to_list.
Qed.

Lemma result_lists_are_disjoint_witness :
  analyze default_args (counters (run_tally Demo.scenario_b))
    (sorted_items (run_functions Demo.scenario_b)) no_analysis
    = Some (run_analysis default_args Demo.scenario_b) ∧
  length (dead_candidates (run_analysis default_args Demo.scenario_b))
  + length (low_usage (run_analysis default_args Demo.scenario_b))
  ≤ size (run_functions Demo.scenario_b).
Proof.
  assert (analyze default_args (counters (run_tally Demo.scenario_b))
    (sorted_items (run_functions Demo.scenario_b)) no_analysis
    = Some (run_analysis default_args Demo.scenario_b)) as H1 by (vm_compute; reflexivity).
  split; [exact H1|].
  exact (proj2 (proj2 (result_lists_are_disjoint _ _ _ _ H1))).
Defined.

(** X11. Setting [--include-tests] or [--include-exported], or raising
    [--max-refs], never removes an entry: each result list of the stricter
    run is a sublist of that of the more permissive run, and [--max-refs]
    alone leaves [dead_candidates] as it is. *)
Theorem permissive_flags_only_add args1 args2 counters functions a1 a2 :
  analyze args1 counters (sorted_items functions) no_analysis = Some a1 →
  analyze args2 counters (sorted_items functions) no_analysis = Some a2 →
  at_least_as_permissive args1 args2 →
  dead_candidates a1 `sublist_of` dead_candidates a2 ∧
  low_usage a1 `sublist_of` low_usage a2 ∧
  (include_tests args1 = include_tests args2 →
   include_exported args1 = include_exported args2 →
   dead_candidates a1 = dead_candidates a2).
Proof.
  intros H1 H2 Hperm.
  rewrite (dead_candidates_eq _ _ _ _ H1), (dead_candidates_eq _ _ _ _ H2),
    (low_usage_eq _ _ _ _ H1), (low_usage_eq _ _ _ _ H2).
  split; [|split].
  - apply omap_sublist. intros item e. unfold dead_of.
    destruct (excluded args1 item.1) eqn:Hex; [done|].
    by rewrite (excluded_permissive _ _ _ Hperm Hex).
  - apply omap_sublist. intros item e. unfold low_of.
    destruct (excluded args1 item.1) eqn:Hex; [done|].
    rewrite (excluded_permissive _ _ _ Hperm Hex).
    case_bool_decide; [done|]. case_bool_decide; [|done].
    destruct Hperm as (_ & _ & Hm). rewrite bool_decide_eq_true_2; [done | lia].
  - intros Ht He. apply list_omap_ext, Forall_Forall2_diag, Forall_true.
    intros item. unfold dead_of, excluded. by rewrite Ht, He.
Qed.

Lemma permissive_flags_only_add_witness :
  analyze Demo.negative_args (counters (run_tally Demo.scenario_b))
    (sorted_items (run_functions Demo.scenario_b)) no_analysis
    = Some (run_analysis Demo.negative_args Demo.scenario_b) ∧
  analyze default_args (counters (run_tally Demo.scenario_b))
    (sorted_items (run_functions Demo.scenario_b)) no_analysis
    = Some (run_analysis default_args Demo.scenario_b) ∧
  at_least_as_permissive Demo.negative_args default_args ∧
  low_usage (run_analysis Demo.negative_args Demo.scenario_b)
    `sublist_of` low_usage (run_analysis default_args Demo.scenario_b).
Proof.
  assert (analyze Demo.negative_args (counters (run_tally Demo.scenario_b))
    (sorted_items (run_functions Demo.scenario_b)) no_analysis
    = Some (run_analysis Demo.negative_args Demo.scenario_b)) as H1 by (vm_compute; reflexivity).
  assert (analyze default_args (counters (run_tally Demo.scenario_b))
    (sorted_items (run_functions Demo.scenario_b)) no_analysis
    = Some (run_analysis default_args Demo.scenario_b)) as H2 by (vm_compute; reflexivity).
  assert (at_least_as_permissive Demo.negative_args default_args) as H3
    by (repeat split; (reflexivity || discriminate)).
  split; [exact H1|]. split; [exact H2|]. split; [exact H3|].
  exact (proj1 (proj2 (permissive_flags_only_add _ _ _ _ _ _ H1 H2 H3))).
Defined.

(** X12. In a report without [--summary] every definition site of every
    dead candidate has its line; every site of a low-usage entry has its
    line with the extra count when the entry is among the first 20, or at
    any position with [--all-low-usage]; beyond 20 entries without that
    flag the report says how many more there are; and without dead
    candidates it says so. *)
Theorem report_lists_every_site args fs :
  run_files fs ≠ [] → run_functions fs ≠ ∅ → summary args = false →
  let a := run_analysis args fs in
  let out := stdout (process args fs) in
  (∀ name ref_count definitions d,
     (name, ref_count, definitions) ∈ dead_candidates a → d ∈ definitions →
     detail_line name "" d ∈ out) ∧
  (dead_candidates a = [] → nl +:+ "✓ No dead code candidates found!" ∈ out) ∧
  (∀ i name ref_count def_count definitions d,
     low_usage a !! i = Some (name, ref_count, def_count, definitions) →
     all_low_usage args = true ∨ i < 20 →
     d ∈ definitions →
     detail_line name (" (" +:+ pretty (ref_count - def_count) +:+ " refs)") d ∈ out) ∧
  (all_low_usage args = false → 20 < length (low_usage a) →
     "  ... and " +:+ pretty (length (low_usage a) - 20)
       +:+ " more (use --all-low-usage to show all)" ∈ out).
Proof.
  intros Hfiles Hfun Hsum. cbv zeta.
  rewrite process_stdout_report by done.
  generalize (run_analysis args fs) (run_tally fs). intros a t.
  unfold report. rewrite Hsum. lazy iota.
  split; [|split; [|split]].
  - intros name ref_count definitions d He Hd.
    apply elem_of_app. right. apply elem_of_app. left.
    unfold dead_section. destruct (dead_candidates a) as [|e0 dead] eqn:Hdead.
    { by apply elem_of_nil in He. }
    apply elem_of_app. right. apply list_elem_of_bind.
    exists (name, ref_count, definitions). split; [|done].
    unfold dead_lines. apply elem_of_app. left.
    apply list_elem_of_fmap. eauto.
  - intros Hnone. apply elem_of_app. right. apply elem_of_app. left.
    unfold dead_section. rewrite Hnone. by left.
  - intros i name ref_count def_count definitions d Hi Hshown Hd.
    apply elem_of_app. right. apply elem_of_app. right. apply elem_of_app. left.
    unfold low_section. rewrite Hsum. lazy iota.
    destruct (low_usage a) as [|e0 low] eqn:Hlow; [done|].
    apply elem_of_app. right. apply elem_of_app. left.
    apply list_elem_of_bind. exists (name, ref_count, def_count, definitions).
    split.
    + unfold low_lines, actual_refs. apply elem_of_app. left.
      apply list_elem_of_fmap. eauto.
    + apply list_elem_of_lookup. exists i. rewrite lookup_take_lt; [done|].
      apply lookup_lt_Some in Hi.
      destruct (all_low_usage args), Hshown as [?|?]; try done; lia.
  - intros Hall Hlen.
    apply elem_of_app. right. apply elem_of_app. right. apply elem_of_app. left.
    unfold low_section. rewrite Hsum, Hall. lazy iota.
    destruct (low_usage a) as [|e0 low] eqn:Hlow; [cbn in Hlen; lia|].
    apply elem_of_app. right. apply elem_of_app. right.
    cbn [negb andb]. rewrite bool_decide_eq_true_2 by done. by left.
Qed.

Lemma report_lists_every_site_witness :
  run_files Demo.scenario_a ≠ [] ∧ run_functions Demo.scenario_a ≠ ∅ ∧
  summary default_args = false ∧
  detail_line "helper" "" ("a.go", 2) ∈ stdout (process default_args Demo.scenario_a).
Proof.
  assert (run_files Demo.scenario_a ≠ []) as H1 by (vm_compute; discriminate).
  assert (run_functions Demo.scenario_a ≠ ∅) as H2 by by_evaluation.
  split; [exact H1|]. split; [exact H2|]. split; [reflexivity|].
  apply (proj1 (report_lists_every_site default_args Demo.scenario_a H1 H2 eq_refl)
           "helper" 1 [("a.go", 2)]); by_evaluation.
Defined.

(** X13. Without [--verbose] stderr holds nothing but the warnings of the
    files that could not be read and the error message of a run without
    report: a reported run prints the warnings of each pass, so each failing
    file is warned about twice; a run without function definitions prints
    them once, then the error; a run without files prints the error alone. *)
Theorem quiet_run_stderr args fs :
  verbose args = false →
  let warnings := run_files fs ≫= λ filename, (read_file fs filename).2 in
  stderr (process args fs) =
    if bool_decide (run_files fs = []) then
      ["[ERROR] No Go files found in current directory"]
    else if bool_decide (run_functions fs = ∅) then
      warnings ++ ["[ERROR] No functions found"]
    else warnings ++ warnings.
Proof.
  intros Hv. cbv zeta. unfold process. rewrite run_files_eq, Hv.
  destruct (run_files fs) as [|file files] eqn:Hfiles; [done|].
  rewrite <-Hfiles. rewrite (bool_decide_eq_false_2 (run_files fs = [])) by by rewrite Hfiles.
  pose proof (run_analysis_eq args fs) as Ha.
  unfold run_tally, run_functions, no_analysis in Ha |- *.
  unfold find_function_definitions, count_references in *. cbn [fst] in Ha |- *.
  cbn [log]. rewrite !app_nil_r, !app_nil_l.
  case_bool_decide as Hfun; cbn [stderr]; [done|].
  rewrite Ha. cbn [stderr]. by rewrite quiet_progress.
Qed.

Lemma quiet_run_stderr_witness :
  verbose default_args = false ∧
  stderr (process default_args Demo.unreadable)
  = [ warning ["locked.go"] "[Errno 13] Permission denied: 'locked.go'";
      warning ["locked.go"] "[Errno 13] Permission denied: 'locked.go'" ].
Proof.
  split; [reflexivity|].
  rewrite (quiet_run_stderr default_args Demo.unreadable eq_refl).
  vm_compute. reflexivity.
Defined.

(** X14. [--verbose] changes nothing but stderr: two runs whose flags
    differ at most in it print the same on stdout and compute the same
    result lists. *)
Theorem verbose_only_changes_stderr args1 args2 fs :
  same_analysis_flags args1 args2 →
  stdout (process args1 fs) = stdout (process args2 fs) ∧
  raised (process args1 fs) = raised (process args2 fs) ∧
  run_analysis args1 fs = run_analysis args2 fs.
Proof.
  intros (Hm & He & Ht & Hs & Hr & Ha).
  destruct args1 as [v1 m1 e1 t1 s1 r1 a1], args2 as [v2 m2 e2 t2 s2 r2 a2].
  cbn in Hm, He, Ht, Hs, Hr, Ha. subst.
  assert (run_analysis (Build_Args v1 m2 e2 t2 s2 r2 a2) fs
          = run_analysis (Build_Args v2 m2 e2 t2 s2 r2 a2) fs) as Hrun.
  { unfold run_analysis. by rewrite !analyze_eq. }
  split; [|split; [|done]].
  - destruct (process_outcome (Build_Args v1 m2 e2 t2 s2 r2 a2) fs)
      as [err ?|err ? ?|err ? ?],
      (process_outcome (Build_Args v2 m2 e2 t2 s2 r2 a2) fs)
      as [err' ?|err' ? ?|err' ? ?]; cbn [stdout]; try done.
    by rewrite Hrun.
  - by rewrite !process_raised.
Qed.

Lemma verbose_only_changes_stderr_witness :
  same_analysis_flags verbose_args default_args ∧
  stdout (process verbose_args Demo.scenario_b)
  = stdout (process default_args Demo.scenario_b).
Proof.
  assert (same_analysis_flags verbose_args default_args) as H
    by (repeat split; reflexivity).
  split; [exact H|].
  exact (proj1 (verbose_only_changes_stderr _ _ Demo.scenario_b H)).
Defined.
